(** * Emissions dashboard (app.py): normalisation, filtering, aggregation

    A shallow embedding of the data pipeline of [app.py]: the region-name
    normalisers (the SQL [CASE] of [load_emissions_data] and the dictionary
    [mapa_norm] of [load_regions_geojson]), [filtrar_emisiones], the
    groupby/sum/sort/head pipelines of the four tabs, the text formatting
    of the heatmap and of the "Top 10" tooltips, and the left merge of the
    choropleth.

    Modelling conventions.
    - A [pd.DataFrame] is the list of its rows, in row order.
    - Text is a [string] of UTF-8 bytes, as the source file stores it;
      byte-wise lexicographic order is code-point order.
    - A nullable column is an [option]; [None] stands for SQL NULL, Python
      [None] and pandas NaN alike.
    - Quantities ([emisiones], float64 in pandas) are exact rationals [Q]:
      sums and divisions are exact, and equality of quantities is [Qeq].
      Module [Float64] repeats the grouping by region and the sums with
      binary64 additions, to show where rounding makes the code differ
      from the exact sums. *)

From Stdlib Require Import ZArith QArith Qround Qabs Lia Lqa.
From Stdlib Require Import Strings.String Strings.Ascii Numbers.DecimalString.
From Stdlib Require Import Floats.PrimFloat.
From stdpp Require Import base tactics option list sorting strings gmap fin_maps.

Local Open Scope string_scope.

(** ** Text primitives of SQL and Python *)

Module Text.

Definition byte_of (c : ascii) : N := N_of_ascii c.

Definition is_space (c : ascii) : bool := (byte_of c =? 32)%N.

(** SQL [TRIM(s)]: removes the spaces at both ends. *)
Fixpoint ltrim (s : string) : string :=
  match s with
  | String c s' => if is_space c then ltrim s' else s
  | EmptyString => EmptyString
  end.

Fixpoint rtrim (s : string) : string :=
  match s with
  | String c s' =>
      match rtrim s' with
      | EmptyString => if is_space c then EmptyString else String c EmptyString
      | t => String c t
      end
  | EmptyString => EmptyString
  end.

Definition TRIM (s : string) : string := rtrim (ltrim s).

Definition no_leading_space (s : string) : Prop :=
  match s with
  | String c _ => is_space c = false
  | EmptyString => True
  end.

(** Case folding.  ASCII letters, and the letters of the Latin-1
    supplement (U+00C0..U+00DE except U+00D7, in UTF-8 the lead byte 0xC3
    followed by 0x80..0x9E except 0x97), which cover every letter of the
    tables below. *)
Definition lower_ascii (c : ascii) : ascii :=
  let n := byte_of c in
  if ((65 <=? n) && (n <=? 90))%N then ascii_of_N (n + 32) else c.

Definition upper_ascii (c : ascii) : ascii :=
  let n := byte_of c in
  if ((97 <=? n) && (n <=? 122))%N then ascii_of_N (n - 32) else c.

Definition lower_latin1 (c : ascii) : ascii :=
  let n := byte_of c in
  if ((128 <=? n) && (n <=? 158) && negb (n =? 151))%N
  then ascii_of_N (n + 32) else c.

Definition upper_latin1 (c : ascii) : ascii :=
  let n := byte_of c in
  if ((160 <=? n) && (n <=? 190) && negb (n =? 183))%N
  then ascii_of_N (n - 32) else c.

Definition is_lead_c3 (c : ascii) : bool := (byte_of c =? 195)%N.

Fixpoint fold_case (fa fl : ascii -> ascii) (s : string) : string :=
  match s with
  | EmptyString => EmptyString
  | String c s' =>
      if is_lead_c3 c then
        match s' with
        | String d s'' => String c (String (fl d) (fold_case fa fl s''))
        | EmptyString => String c EmptyString
        end
      else String (fa c) (fold_case fa fl s')
  end.

(** PostgreSQL [lower()] and Python [str.upper()]. *)
Definition str_lower : string -> string := fold_case lower_ascii lower_latin1.
Definition str_upper : string -> string := fold_case upper_ascii upper_latin1.

(** SQL [s LIKE p]: [%] in the pattern matches any run of bytes, every
    other byte matches itself (the patterns of the source have no [_] and
    no escape). *)
Fixpoint LIKE (s p : string) {struct p} : bool :=
  match p with
  | EmptyString => match s with EmptyString => true | _ => false end
  | String c p' =>
      if Ascii.eqb c "%" then
        (fix any (s : string) : bool :=
           LIKE s p' ||
           match s with
           | EmptyString => false
           | String _ s' => any s'
           end) s
      else
        match s with
        | EmptyString => false
        | String d s' => Ascii.eqb c d && LIKE s' p'
        end
  end.

(** A pattern without wildcard. *)
Fixpoint literal (p : string) : bool :=
  match p with
  | EmptyString => true
  | String c p' => negb (Ascii.eqb c "%") && literal p'
  end.

(** The literal [q] of a pattern of the form [q%]. *)
Fixpoint pattern_prefix (p : string) : option string :=
  match p with
  | EmptyString => None
  | String c p' =>
      if Ascii.eqb c "%" then
        match p' with
        | EmptyString => Some EmptyString
        | _ => None
        end
      else String c <$> pattern_prefix p'
  end.

(** A sufficient test that no text matches both patterns: two different
    literals, or a literal that does not start with the prefix of the
    other pattern. *)
Definition never_both (p1 p2 : string) : bool :=
  match pattern_prefix p1, pattern_prefix p2 with
  | None, None => literal p1 && literal p2 && negb (String.eqb p1 p2)
  | Some q1, None => literal p2 && negb (String.prefix q1 p2)
  | None, Some q2 => literal p1 && negb (String.prefix q2 p1)
  | Some _, Some _ => false
  end.

(** SQL [s ILIKE p]: [LIKE] on the case-folded operands. *)
Definition ILIKE (s p : string) : bool := LIKE (str_lower s) (str_lower p).

(** Python [str(n)] for an [int]. *)
Definition str_of_int (n : Z) : string := NilEmpty.string_of_int (Z.to_int n).

(** Python [sep.join(parts)]. *)
Fixpoint join (sep : string) (parts : list string) : string :=
  match parts with
  | [] => EmptyString
  | [p] => p
  | p :: rest => p +:+ sep +:+ join sep rest
  end.

End Text.

(** ** Region name normalisers *)

Module Normalizer.
Import Text.

(** The [CASE] expression of the query in [load_emissions_data]: the
    ordered [WHEN TRIM(eh.region) ILIKE pattern THEN result] branches. *)
Definition region_case : list (string * string) :=
  [ ("Metropolitana%", "Metropolitana de Santiago");
    ("Araucanía", "La Araucanía");
    ("Ñuble", "Ñuble");
    ("Coquimbo", "Coquimbo");
    ("Tarapacá", "Tarapacá");
    ("Antofagasta", "Antofagasta");
    ("La Araucanía", "La Araucanía");
    ("Los Lagos", "Los Lagos");
    ("Los Ríos", "Los Ríos");
    ("Atacama", "Atacama");
    ("Biobío", "Biobío");
    ("Maule", "Maule");
    ("Arica y Parinacota", "Arica y Parinacota");
    ("Valparaíso", "Valparaíso");
    ("Magallanes y de la Antártica Chilena", "Magallanes y de la Antártica Chilena");
    ("Magallanes", "Magallanes y de la Antártica Chilena");
    ("O'Higgins", "Libertador General Bernardo O'Higgins");
    ("Libertador Gral. Bernardo O'Higgins", "Libertador General Bernardo O'Higgins");
    ("Aysén del Gral. Carlos Ibáñez del Campo", "Aysén del General Carlos Ibáñez del Campo");
    ("Aysén del General Carlos Ibáñez del Campo", "Aysén del General Carlos Ibáñez del Campo") ].

(** [CASE WHEN ... THEN ... ELSE dflt END]: the first branch whose
    pattern matches decides. *)
Fixpoint case_when (branches : list (string * string)) (t dflt : string) : string :=
  match branches with
  | [] => dflt
  | (pat, res) :: rest => if ILIKE t pat then res else case_when rest t dflt
  end.

(** The column [region_norm] of the emissions query, from [eh.region]. *)
Definition region_norm_sql (region : string) : string :=
  case_when region_case (TRIM region) (TRIM region).

(** The dictionary [mapa_norm] of [load_regions_geojson]. *)
Definition mapa_norm_items : list (string * string) :=
  [ ("Región Metropolitana de Santiago", "Metropolitana de Santiago");
    ("Región de La Araucanía", "La Araucanía");
    ("Región de Ñuble", "Ñuble");
    ("Región de Coquimbo", "Coquimbo");
    ("Región de Tarapacá", "Tarapacá");
    ("Región de Antofagasta", "Antofagasta");
    ("Región de Los Lagos", "Los Lagos");
    ("Región de Los Ríos", "Los Ríos");
    ("Región de Atacama", "Atacama");
    ("Región del Bío-Bío", "Biobío");
    ("Región del Maule", "Maule");
    ("Región de Arica y Parinacota", "Arica y Parinacota");
    ("Región de Valparaíso", "Valparaíso");
    ("Región de Magallanes y Antártica Chilena", "Magallanes y de la Antártica Chilena");
    ("Región de Aysén del Gral.Ibañez del Campo", "Aysén del General Carlos Ibáñez del Campo");
    ("Región del Libertador Bernardo O'Higgins", "Libertador General Bernardo O'Higgins");
    ("Zona sin demarcar", "Sin demarcar") ].

Definition mapa_norm : gmap string string := list_to_map mapa_norm_items.

(** [gdf["Region"].map(mapa_norm)] on one value: a name that is not a key
    of the dictionary becomes NaN. *)
Definition region_norm_geo (Region : string) : option string :=
  mapa_norm !! Region.

End Normalizer.


(** ** The emissions table *)

Module Data.

(** A row of the frame returned by [load_emissions_data].  The query
    keeps only rows whose [region], [rubro_vu] and [cantidad_toneladas]
    are not NULL; the other text columns may be NULL. *)
Record emission : Type := mk_emission {
  period : Z;
  region_norm : string;
  id_vu : option string;
  nombre_establecimiento : option string;
  rubro_vu : string;
  contaminantes : option string;
  emisiones : Q
}.

Abbreviation DataFrame := (list emission).

(** [pd.Series.sum()] of a column of quantities. *)
Definition Qsum (l : list Q) : Q := foldr Qplus 0%Q l.

Definition sum_emisiones (df : DataFrame) : Q := Qsum (emisiones <$> df).

End Data.

(** ** filtrar_emisiones *)

Module Filter.
Import Data.

(** The test [if x and x != "Todos"] on an optional string: [None] and
    the empty string are falsy. *)
Definition applies (x : option string) : bool :=
  match x with
  | Some s => negb (String.eqb s "") && negb (String.eqb s "Todos")
  | None => false
  end.

(** A criterion that is absent or the sentinel of the select boxes. *)
Definition no_criterion (x : option string) : Prop :=
  x = None ∨ x = Some "Todos".

Definition filtrar_emisiones (df : DataFrame)
    (rubro contaminante region : option string)
    (anio_min anio_max : option Z) : DataFrame :=
  let df2 := df in
  let df2 := if applies rubro
             then filter (λ row, Some (rubro_vu row) = rubro) df2 else df2 in
  let df2 := if applies contaminante
             then filter (λ row, contaminantes row = contaminante) df2 else df2 in
  let df2 := if applies region
             then filter (λ row, Some (region_norm row) = region) df2 else df2 in
  let df2 := match anio_min, anio_max with
             | Some lo, Some hi =>
                 filter (λ row, (lo ≤ period row)%Z ∧ (period row ≤ hi)%Z) df2
             | _, _ => df2
             end in
  df2.

(** The conjunction of the criteria that apply, on one row. *)
Definition year_in_range (anio_min anio_max : option Z) (row : emission) : Prop :=
  match anio_min, anio_max with
  | Some lo, Some hi => (lo ≤ period row)%Z ∧ (period row ≤ hi)%Z
  | _, _ => True
  end.

Definition passes (rubro contaminante region : option string)
    (anio_min anio_max : option Z) (row : emission) : Prop :=
  (applies rubro → Some (rubro_vu row) = rubro)
  ∧ (applies contaminante → contaminantes row = contaminante)
  ∧ (applies region → Some (region_norm row) = region)
  ∧ year_in_range anio_min anio_max row.

#[global] Instance year_in_range_dec lo hi row : Decision (year_in_range lo hi row).
Proof. unfold year_in_range. destruct lo, hi; apply _. Defined.

#[global] Instance passes_dec r c g lo hi row : Decision (passes r c g lo hi row).
Proof. unfold passes. apply _. Defined.

End Filter.

(** ** Number formatting *)

Module Format.
Import Text.

(** Rounding to the nearest integer, ties to the even one: the rounding
    of Python's fixed-point format [:.nf]. *)
Definition round_half_even (x : Q) : Z :=
  let f := Qfloor x in
  match (x - inject_Z f ?= 1 # 2)%Q with
  | Lt => f
  | Gt => (f + 1)%Z
  | Eq => if Z.even f then f else (f + 1)%Z
  end.

Definition digit (n : Z) : ascii := ascii_of_N (48 + Z.to_N n).

Definition is_digit (c : ascii) : Prop := (48 ≤ byte_of c ≤ 57)%N.

(** The [prec] low decimal digits of [n], zero padded. *)
Fixpoint frac_digits (prec : nat) (n : Z) : string :=
  match prec with
  | O => EmptyString
  | S p => frac_digits p (n / 10) +:+ String (digit (n mod 10)) EmptyString
  end.

(** Python [f"{x:.{prec}f}"].  Python rounds the binary value of the
    float, the model the exact number: the two agree unless the exact
    number lies half-way between two outputs and the float does not
    (0.005 at two decimals, say). *)
Definition format_f (prec : nat) (x : Q) : string :=
  let scale := (10 ^ Z.of_nat prec)%Z in
  let m := round_half_even (Qabs x * inject_Z scale) in
  (if Qle_bool 0 x then "" else "-")
    +:+ str_of_int (m / scale)
    +:+ match prec with
        | O => ""
        | S _ => "." +:+ frac_digits prec (m mod scale)
        end.

(** Python [int(x)] on a float: truncation toward zero. *)
Definition int_of_float (x : Q) : Z := Z.quot (Qnum x) (Zpos (Qden x)).

Definition ge (x y : Q) : bool := Qle_bool y x.

(** The text inside a heatmap cell (the loop over [z_vals]). *)
Definition cell_text (val : Q) : string :=
  if ge val 1000000 then format_f 1 (val / 1000000) +:+ "M"
  else if ge val 1000 then str_of_int (int_of_float (val / 1000)) +:+ "k"
  else str_of_int (int_of_float val).

(** [emis_str], the emissions line of the heatmap hover text. *)
Definition emis_str (emis : Q) : string :=
  if ge emis 1000000 then format_f 1 (emis / 1000000) +:+ "M Ton"
  else if ge emis 1000 then format_f 0 (emis / 1000) +:+ "k Ton"
  else format_f 0 emis +:+ " Ton".

(** One entry of a "Top 10" list:
    [f"{id_vu} – {nombre} ({val/1e6:.2f} M)"]. *)
Definition facility_label (id_vu nombre : string) (val : Q) : string :=
  id_vu +:+ " – " +:+ nombre +:+ " (" +:+ format_f 2 (val / 1000000) +:+ " M)".

(** The quantity inside the parentheses of the label. *)
Definition facility_quantity (val : Q) : string :=
  format_f 2 (val / 1000000) +:+ " M".

End Format.

(** ** groupby / sum / sort_values / head *)

Module Aggregation.
Import Text Data Format.

#[global] Instance Qle_dec : RelDecision Qle.
Proof.
  intros x y. destruct (Qlt_le_dec y x) as [Hlt | Hle].
  - right. apply Qlt_not_le, Hlt.
  - left. exact Hle.
Defined.

(** A [pd.Series]: index labels with their values, in row order. *)
Definition Series (K : Type) : Type := list (K * Q).

Section groupby.
Context {K : Type} `{Countable K}.

(** One row enters the running totals; a row whose key is null is
    dropped ([dropna=True], the default of [groupby]). *)
Definition group_add (key : emission → option K)
    (acc : gmap K Q) (row : emission) : gmap K Q :=
  match key row with
  | Some k => <[k := (default 0 (acc !! k) + emisiones row)%Q]> acc
  | None => acc
  end.

Definition group_sums (key : emission → option K) (df : DataFrame) : gmap K Q :=
  foldl (group_add key) ∅ df.

(** The orders of a series: by index label, by value ascending, by
    value descending. *)
Definition index_order (le : relation K) : relation (K * Q) :=
  λ a b, le a.1 b.1.
Definition value_asc : relation (K * Q) := λ a b, (a.2 <= b.2)%Q.
Definition value_desc : relation (K * Q) := λ a b, (b.2 <= a.2)%Q.

#[global] Instance index_order_dec (le : relation K) `{!RelDecision le} :
  RelDecision (index_order le) := λ a b, decide (le a.1 b.1).
#[global] Instance value_asc_dec : RelDecision value_asc :=
  λ a b, decide (a.2 <= b.2)%Q.
#[global] Instance value_desc_dec : RelDecision value_desc :=
  λ a b, decide (b.2 <= a.2)%Q.

(** [df.groupby(key)["emisiones"].sum()]: one entry per key, the
    entries in ascending key order ([sort=True], the default). *)
Definition groupby_sum (le : relation K) `{!RelDecision le}
    (key : emission → option K) (df : DataFrame) : Series K :=
  merge_sort (index_order le) (map_to_list (group_sums key df)).

(** [Series.sort_values(ascending=...)].  Entries with equal values come
    out in the order of [merge_sort]; pandas' default sort does not fix
    their order. *)
Definition sort_values (ascending : bool) (s : Series K) : Series K :=
  if ascending then merge_sort value_asc s else merge_sort value_desc s.

(** [Series.sum()]. *)
Definition Series_sum (s : Series K) : Q := Qsum s.*2.

(** [Series.head(n)]. *)
Definition Series_head (n : nat) (s : Series K) : Series K := take n s.
End groupby.

(** Orders of the group keys: text by code point, tuples
    lexicographically. *)
Definition str_le (s t : string) : Prop := String.leb s t.

Definition facility_le (a b : string * string) : Prop :=
  match String.compare a.1 b.1 with
  | Lt => True
  | Eq => str_le a.2 b.2
  | Gt => False
  end.

#[global] Instance str_le_dec : RelDecision str_le.
Proof. intros s t. unfold str_le. apply _. Defined.

#[global] Instance facility_le_dec : RelDecision facility_le.
Proof. intros a b. unfold facility_le. destruct (String.compare a.1 b.1); apply _. Defined.

Definition by_region (row : emission) : option string := Some (region_norm row).
Definition by_rubro (row : emission) : option string := Some (rubro_vu row).

(** The key of [groupby(["id_vu", "nombre_establecimiento"])]. *)
Definition by_facility (row : emission) : option (string * string) :=
  match id_vu row, nombre_establecimiento row with
  | Some i, Some n => Some (i, n)
  | _, _ => None
  end.

(** [df_r.groupby([...])["emisiones"].sum().sort_values(ascending=False).head(10)]. *)
Definition top10 (df_r : DataFrame) : Series (string * string) :=
  Series_head 10 (sort_values false (groupby_sum facility_le by_facility df_r)).

(** The loop over [top10.items()] that fills [lista_html]. *)
Definition lista_html (top : Series (string * string)) : list string :=
  (λ e, facility_label e.1.1 e.1.2 e.2) <$> top.

Definition top10_html (df_r : DataFrame) : string :=
  join "<br>" (lista_html (top10 df_r)).

(** Tab 1: [emis_region] and the column [Top10_Establecimientos]. *)
Definition emis_region (df_filtrado : DataFrame) : Series string :=
  sort_values true (groupby_sum str_le by_region df_filtrado).

Definition top10_list (df_filtrado : DataFrame) : list string :=
  (λ e, top10_html (filter (λ row, region_norm row = e.1) df_filtrado))
    <$> emis_region df_filtrado.

(** Tab 2: [emis_rubro] and its [Top10_Establecimientos]. *)
Definition emis_rubro (df_filtrado : DataFrame) : Series string :=
  sort_values true (groupby_sum str_le by_rubro df_filtrado).

Definition top10_rubro (df_filtrado : DataFrame) : list string :=
  (λ e, top10_html (filter (λ row, rubro_vu row = e.1) df_filtrado))
    <$> emis_rubro df_filtrado.

End Aggregation.

(** ** Tab 3: the region-by-year heatmap *)

Module Heatmap.
Import Text Data Format Aggregation.

Definition by_region_period (row : emission) : option (string * Z) :=
  Some (region_norm row, period row).

Definition region_period_le (a b : string * Z) : Prop :=
  match String.compare a.1 b.1 with
  | Lt => True
  | Eq => (a.2 ≤ b.2)%Z
  | Gt => False
  end.

#[global] Instance region_period_le_dec : RelDecision region_period_le.
Proof.
  intros a b. unfold region_period_le.
  destruct (String.compare a.1 b.1); apply _.
Defined.

(** A frame with a row index, column labels and a matrix of values. *)
Record pivot_table : Type := mk_pivot {
  index : list string;
  columns : list Z;
  values : list (list Q)
}.

(** [Series.unstack(fill_value=...)] of a series indexed by pairs: the
    rows are the distinct first components, the columns the distinct
    second components, both sorted; a pair without entry gets
    [fill_value]. *)
Definition unstack (fill_value : Q) (s : Series (string * Z)) : pivot_table :=
  let idx := merge_sort str_le (remove_dups (s.*1.*1)) in
  let cols := merge_sort Z.le (remove_dups (s.*1.*2)) in
  let entries : gmap (string * Z) Q := list_to_map s in
  {| index := idx;
     columns := cols;
     values :=
       (λ r, (λ y, default fill_value (entries !! (r, y))) <$> cols) <$> idx |}.

Definition pivot (df_filtrado : DataFrame) : pivot_table :=
  unstack 0 (groupby_sum region_period_le by_region_period df_filtrado).

(** [z_vals[i][j]]; [None] is Python's [IndexError]. *)
Definition at_ij {A : Type} (m : list (list A)) (i j : nat) : option A :=
  m !! i ≫= (λ fila : list A, fila !! j).

Definition text_vals (z_vals : list (list Q)) : list (list string) :=
  (λ fila : list Q, cell_text <$> fila) <$> z_vals.

(** The "Top 10" part of one hover text. *)
Definition top10_str (df_filtrado : DataFrame) (region : string) (year : Z) : string :=
  let df_r_a :=
    filter (λ row, region_norm row = region ∧ period row = year) df_filtrado in
  match df_r_a with
  | [] => "Sin datos"
  | _ => top10_html df_r_a
  end.

Definition hover_html (region : string) (year : Z) (emis_s top10_s : string) : string :=
  "<b>Región:</b> " +:+ region +:+ "<br>"
  +:+ "<b>Año:</b> " +:+ str_of_int year +:+ "<br>"
  +:+ "<b>Emisiones:</b> " +:+ emis_s +:+ "<br><br>"
  +:+ "<b>Top 10 Establecimientos:</b><br>" +:+ top10_s.

(** The double loop over [enumerate(regions)] and [enumerate(years)]. *)
Definition hovertext (df_filtrado : DataFrame) (p : pivot_table)
    : list (list (option string)) :=
  imap (λ i region,
    imap (λ j year,
      emis ← at_ij (values p) i j;
      Some (hover_html region year (emis_str emis)
              (top10_str df_filtrado region year)))
      (columns p))
    (index p).

End Heatmap.

(** ** Tab 4: the choropleth *)

Module Choropleth.
Import Text Data Aggregation.

Section geometry.
(** Geometries and their rotation belong to the geometry library. *)
Variable G : Type.
Variable rotate : G → G.

(** A row of the frame of [load_regions_geojson], with the column
    [REGION_UP] added by the tab. *)
Record feature : Type := mk_feature {
  Region : string;
  geometry : G;
  g_region_norm : option string;
  g_REGION_UP : option string
}.

(** [load_regions_geojson], from the (Region, geometry) pairs that
    [gpd.read_file] returns; [REGION_UP] is not set yet. *)
Definition load_regions_geojson (file : list (string * G)) : list feature :=
  (λ f, {| Region := f.1; geometry := f.2;
           g_region_norm := Normalizer.region_norm_geo f.1;
           g_REGION_UP := None |}) <$> file.

(** Steps 7.2 and 7.3 (second half): rotate, then
    [gdf_regiones["REGION_UP"] = gdf_regiones["region_norm"].str.upper()]. *)
Definition gdf_regiones (file : list (string * G)) : list feature :=
  (λ f, {| Region := Region f; geometry := rotate (geometry f);
           g_region_norm := g_region_norm f;
           g_REGION_UP := str_upper <$> g_region_norm f |})
    <$> load_regions_geojson file.

(** A row of [emis_region_total]. *)
Record region_total : Type := mk_region_total {
  t_region_norm : string;
  t_emisiones : Q;
  t_REGION_UP : string
}.

Definition emis_region_total (df_filtrado : DataFrame) : list region_total :=
  (λ e, {| t_region_norm := e.1; t_emisiones := e.2;
           t_REGION_UP := str_upper e.1 |})
    <$> groupby_sum str_le by_region df_filtrado.

(** A row of the merged frame; the columns that come from the right
    frame are missing when no right row has the key. *)
Record merged : Type := mk_merged {
  m_feature : feature;
  m_region_norm_y : option string;
  m_emisiones : option Q
}.

(** The right rows that have the key of a left row. *)
Definition matches (right : list region_total) (f : feature) : list region_total :=
  filter (λ t, Some (t_REGION_UP t) = g_REGION_UP f) right.

(** [left.merge(right, on="REGION_UP", how="left")]: every left row, in
    order, once per right row with the same key, or once with missing
    right columns when there is none. *)
Definition merge_left (left : list feature) (right : list region_total)
    : list merged :=
  left ≫= (λ f,
    match matches right f with
    | [] => [ {| m_feature := f; m_region_norm_y := None; m_emisiones := None |} ]
    | ts => (λ t, {| m_feature := f;
                     m_region_norm_y := Some (t_region_norm t);
                     m_emisiones := Some (t_emisiones t) |}) <$> ts
    end).

(** [.fillna({"emisiones": v})]. *)
Definition fillna_emisiones (v : Q) (rows : list merged) : list merged :=
  (λ m, {| m_feature := m_feature m;
           m_region_norm_y := m_region_norm_y m;
           m_emisiones := Some (default v (m_emisiones m)) |}) <$> rows.

Definition geo_merged (file : list (string * G)) (df_filtrado : DataFrame)
    : list merged :=
  fillna_emisiones 0 (merge_left (gdf_regiones file) (emis_region_total df_filtrado)).

End geometry.

Arguments Region {G}.
Arguments geometry {G}.
Arguments g_region_norm {G}.
Arguments g_REGION_UP {G}.
Arguments m_feature {G}.
Arguments m_region_norm_y {G}.
Arguments m_emisiones {G}.
Arguments gdf_regiones {G}.
Arguments geo_merged {G}.
Arguments merge_left {G}.
Arguments matches {G}.
Arguments fillna_emisiones {G}.
Arguments load_regions_geojson {G}.

End Choropleth.

(** ** The four tabs: each shows a warning instead of a chart when the
    filtered frame is empty *)

Module Dashboard.
Import Data Aggregation Heatmap Choropleth.

(** [if df_filtrado.empty: st.warning(...) else: ...]; [None] is the
    warning. *)
Definition unless_empty {A : Type} (df_filtrado : DataFrame) (view : A) : option A :=
  match df_filtrado with
  | [] => None
  | _ => Some view
  end.

Definition tab_region (df_filtrado : DataFrame) :=
  unless_empty df_filtrado (emis_region df_filtrado, top10_list df_filtrado).

Definition tab_rubro (df_filtrado : DataFrame) :=
  unless_empty df_filtrado (emis_rubro df_filtrado, top10_rubro df_filtrado).

Definition tab_heatmap (df_filtrado : DataFrame) :=
  let p := pivot df_filtrado in
  unless_empty df_filtrado (p, text_vals (values p), hovertext df_filtrado p).

Definition tab_mapa {G : Type} (rotate : G → G) (file : list (string * G))
    (df_filtrado : DataFrame) :=
  unless_empty df_filtrado (geo_merged rotate file df_filtrado).

End Dashboard.

(** ** The sums by region in binary64 *)

Module Float64.
Import Aggregation.

(** The two columns that the grouping by region reads, [emisiones] as the
    float64 that the frame holds. *)
Record emission64 : Type := mk_emission64 {
  f_region_norm : string;
  f_emisiones : float
}.

(** A sum of float64 values, added from left to right with the rounding
    of each addition. *)
Definition fsum (l : list float) : float := foldl PrimFloat.add 0%float l.

Definition sum_emisiones (df : list emission64) : float :=
  fsum (f_emisiones <$> df).

(** [groupby("region_norm")["emisiones"].sum()]: as [group_add] and
    [groupby_sum] above, with float64 additions. *)
Definition group_add (acc : gmap string float) (row : emission64)
    : gmap string float :=
  <[f_region_norm row :=
      (default 0%float (acc !! f_region_norm row) + f_emisiones row)%float]> acc.

Definition group_sums (df : list emission64) : gmap string float :=
  foldl group_add ∅ df.

Definition by_index : relation (string * float) := λ a b, str_le a.1 b.1.
Definition by_value : relation (string * float) :=
  λ a b, PrimFloat.leb a.2 b.2 = true.

#[global] Instance by_index_dec : RelDecision by_index :=
  λ a b, decide (str_le a.1 b.1).
#[global] Instance by_value_dec : RelDecision by_value :=
  λ a b, decide (PrimFloat.leb a.2 b.2 = true).

Definition groupby_sum (df : list emission64) : list (string * float) :=
  merge_sort by_index (map_to_list (group_sums df)).

(** [emis_region] of the first tab. *)
Definition emis_region (df_filtrado : list emission64) : list (string * float) :=
  merge_sort by_value (groupby_sum df_filtrado).

Definition Series_sum (s : list (string * float)) : float := fsum s.*2.

(** Rows of 0.1, 0.2 and 0.4 tonnes (the nearest float64 values), the
    first and the last in one region. *)
Definition three_rows : list emission64 :=
  [ {| f_region_norm := "Atacama"; f_emisiones := 0x1.999999999999ap-4 |};
    {| f_region_norm := "Biobío"; f_emisiones := 0x1.999999999999ap-3 |};
    {| f_region_norm := "Atacama"; f_emisiones := 0x1.999999999999ap-2 |} ].

End Float64.

(** ** The emissions query *)

Module Loader.
Import Text Normalizer Data.

(** A row of the table [air_ps.emissions_hist], with the columns the
    query reads; every column may be NULL.  The period is taken to be a
    whole number, so that [CAST(... AS INTEGER)] leaves it as it is. *)
Record emissions_hist : Type := mk_emissions_hist {
  eh_period : option Z;
  eh_region : option string;
  eh_id_vu : option string;
  eh_nombre_establecimiento : option string;
  eh_rubro_vu : option string;
  eh_contaminantes : option string;
  eh_cantidad_toneladas : option Q
}.

(** The [WHERE] clause and the [SELECT] list of the query on one row:
    [None] when the row is filtered out (a comparison with NULL is not
    true). *)
Definition select_row (eh : emissions_hist) : option emission :=
  match eh_period eh, eh_cantidad_toneladas eh, eh_region eh, eh_rubro_vu eh with
  | Some p, Some q, Some region, Some rubro =>
      if bool_decide (2005 ≤ p ∧ p ≤ 2023)%Z then
        Some {| period := p;
                region_norm := region_norm_sql region;
                id_vu := eh_id_vu eh;
                nombre_establecimiento := eh_nombre_establecimiento eh;
                rubro_vu := rubro;
                contaminantes := eh_contaminantes eh;
                emisiones := q |}
      else None
  | _, _, _, _ => None
  end.

(** [load_emissions_data]: the rows of the table that the query denotes,
    here in table order (the query has no [ORDER BY]).  Whether the
    database driver accepts the text of the query is outside the model. *)
Definition load_emissions_data (table : list emissions_hist) : DataFrame :=
  omap select_row table.

End Loader.

(** ** The sidebar *)

Module Sidebar.
Import Data Aggregation.

(** [int(df["period"].min())] and [int(df["period"].max())]: on an empty
    column pandas gives NaN and [int] raises; [None] is that error. *)
Definition period_min (df : DataFrame) : option Z :=
  match period <$> df with
  | [] => None
  | p :: ps => Some (foldr Z.min p ps)
  end.

Definition period_max (df : DataFrame) : option Z :=
  match period <$> df with
  | [] => None
  | p :: ps => Some (foldr Z.max p ps)
  end.

(** The [min_value] and [max_value] of the year slider. *)
Definition slider_bounds (df : DataFrame) : option (Z * Z) :=
  lo ← period_min df; hi ← period_max df; Some (lo, hi).

(** [["Todos"] + sorted(df[col].dropna().unique().tolist())]. *)
Definition options (col : emission → option string) (df : DataFrame) : list string :=
  "Todos" :: merge_sort str_le (remove_dups (omap col df)).

Definition rubros (df : DataFrame) : list string :=
  options (λ row, Some (rubro_vu row)) df.

Definition contaminantes_opciones (df : DataFrame) : list string :=
  options contaminantes df.

Definition regiones (df : DataFrame) : list string :=
  options (λ row, Some (region_norm row)) df.

End Sidebar.

(** ** Sample frames *)

Module Sample.
Import Data.

Definition tarapaca_500 : emission :=
  {| period := 2020; region_norm := "Tarapacá";
     id_vu := Some "E1"; nombre_establecimiento := Some "Planta Uno";
     rubro_vu := "Minería"; contaminantes := Some "CO2"; emisiones := 500 |}.

Definition tarapaca_300 : emission :=
  {| period := 2020; region_norm := "Tarapacá";
     id_vu := Some "E1"; nombre_establecimiento := Some "Planta Uno";
     rubro_vu := "Minería"; contaminantes := Some "CO2"; emisiones := 300 |}.

Definition maule_2018 : emission :=
  {| period := 2018; region_norm := "Maule";
     id_vu := Some "E2"; nombre_establecimiento := Some "Planta Dos";
     rubro_vu := "Pesca"; contaminantes := None; emisiones := 2340000 |}.

Definition maule_2021 : emission :=
  {| period := 2021; region_norm := "Maule";
     id_vu := Some "E3"; nombre_establecimiento := None;
     rubro_vu := "Pesca"; contaminantes := Some "MP10"; emisiones := 1500 |}.

Definition frame : DataFrame :=
  [tarapaca_500; maule_2018; tarapaca_300; maule_2021].

(** Eleven facilities of one region, with 1 to 11 tonnes. *)
Definition facility (n : Z) : emission :=
  {| period := 2020; region_norm := "Maule";
     id_vu := Some (Text.str_of_int n); nombre_establecimiento := Some "Planta";
     rubro_vu := "Pesca"; contaminantes := None; emisiones := inject_Z n |}.

Definition eleven : DataFrame := facility <$> [3; 1; 4; 11; 5; 9; 2; 6; 10; 8; 7]%Z.

(** A file of three features; geometries are left abstract. *)
Definition regional : list (string * nat) :=
  [("Región del Maule", 1); ("Región de Atacama", 2); ("Isla de Pascua", 3)].

End Sample.

(** * Properties *)

Import Text Normalizer Data Filter Format Aggregation Heatmap Choropleth.

(** ** TRIM *)

Section trim.

Lemma ltrim_no_leading_space s : no_leading_space (ltrim s).
Proof.
  induction s as [|c s IH]; simpl; [exact I|].
  destruct (is_space c) eqn:Hc; [exact IH | exact Hc].
Qed.

Lemma ltrim_id s : no_leading_space s → ltrim s = s.
Proof. destruct s as [|c s]; simpl; [done|]. by intros ->. Qed.

Lemma rtrim_no_leading_space s : no_leading_space s → no_leading_space (rtrim s).
Proof.
  destruct s as [|c s]; simpl; [done|]. intros Hc.
  destruct (rtrim s); simpl; by rewrite ?Hc.
Qed.

Lemma rtrim_idem s : rtrim (rtrim s) = rtrim s.
Proof.
  induction s as [|c s IH]; simpl; [done|].
  destruct (rtrim s) as [|d t] eqn:Hr.
  - destruct (is_space c) eqn:Hc; simpl; by rewrite ?Hc.
  - change (rtrim (String c (String d t))) with
      (match rtrim (String d t) with
       | EmptyString => if is_space c then EmptyString else String c EmptyString
       | u => String c u
       end).
    by rewrite IH.
Qed.

Lemma TRIM_idem s : TRIM (TRIM s) = TRIM s.
Proof.
  unfold TRIM.
  rewrite (ltrim_id (rtrim (ltrim s))).
  - apply rtrim_idem.
  - apply rtrim_no_leading_space, ltrim_no_leading_space.
Qed.

End trim.

(** ** The normalisers *)

Section normalizer.

Lemma case_when_no_match branches t dflt :
  Forall (λ b, ILIKE t b.1 = false) branches → case_when branches t dflt = dflt.
Proof.
  induction 1 as [|[pat res] rest Hb _ IH]; simpl in *; [done|].
  by rewrite Hb.
Qed.

Lemma case_when_cases branches t dflt :
  case_when branches t dflt = dflt ∨ case_when branches t dflt ∈ branches.*2.
Proof.
  induction branches as [|[pat res] rest IH]; simpl; [by left|].
  destruct (ILIKE t pat).
  - right. apply list_elem_of_here.
  - destruct IH as [IH | IH]; [by left|]. right. by apply list_elem_of_further.
Qed.

Lemma region_norm_sql_TRIM region :
  region_norm_sql (TRIM region) = region_norm_sql region.
Proof. unfold region_norm_sql. by rewrite TRIM_idem. Qed.

Lemma region_case_results_fixed :
  Forall (λ c, region_norm_sql c = c) region_case.*2.
Proof. apply (bool_decide_unpack _). vm_compute. exact I. Qed.

Lemma mapa_norm_results_fixed :
  Forall (λ c, region_norm_sql c = c ∧ region_norm_geo c = None) mapa_norm_items.*2.
Proof. apply (bool_decide_unpack _). vm_compute. exact I. Qed.

Lemma mapa_norm_keys_NoDup : NoDup mapa_norm_items.*1.
Proof. apply (bool_decide_unpack _). vm_compute. exact I. Qed.

Lemma region_norm_sql_idem region :
  region_norm_sql (region_norm_sql region) = region_norm_sql region.
Proof.
  destruct (case_when_cases region_case (TRIM region) (TRIM region)) as [Hd | Hin].
  - replace (region_norm_sql region) with (TRIM region) at 1 by done.
    apply region_norm_sql_TRIM.
  - pose proof region_case_results_fixed as Hfix.
    rewrite Forall_forall in Hfix. by apply Hfix.
Qed.

End normalizer.

(** C6, as amended.  The emissions-side normaliser (the SQL [CASE]) is
    idempotent on every input, hence on every spelling of its table; every
    canonical name produced by either table is a fixed point of it; the
    geometry-side dictionary maps each of its own results to a missing
    value, since no canonical name is one of its keys. *)
Theorem region_norm_idempotent :
  (∀ region, region_norm_sql (region_norm_sql region) = region_norm_sql region)
  ∧ Forall (λ c, region_norm_sql c = c) (region_case.*2 ++ mapa_norm_items.*2)
  ∧ Forall (λ c, region_norm_geo c = None) mapa_norm_items.*2.
Proof.
  split; [exact region_norm_sql_idem|].
  pose proof mapa_norm_results_fixed as Hgeo.
  split.
  - apply Forall_app. split; [exact region_case_results_fixed|].
    eapply Forall_impl; [exact Hgeo|]. by intros c [Hc _].
  - eapply Forall_impl; [exact Hgeo|]. by intros c [_ Hc].
Qed.

(** C6, the claim as stated fails for the geometry-side dictionary: the
    spelling "Región de Tarapacá" is a key, its result "Tarapacá" is not,
    so normalising the result once more gives a missing value. *)
Lemma mapa_norm_not_idempotent :
  ("Región de Tarapacá" ∈ mapa_norm_items.*1)
  ∧ region_norm_geo "Región de Tarapacá" = Some "Tarapacá"
  ∧ (region_norm_geo "Región de Tarapacá" ≫= region_norm_geo) = None.
Proof.
  split; [|split].
  - apply (bool_decide_unpack _). vm_compute. exact I.
  - vm_compute. reflexivity.
  - vm_compute. reflexivity.
Qed.

(** C7, as amended.  A name that matches no branch of the [CASE] comes
    back trimmed and otherwise unchanged on the emissions side; on the
    geometry side a name that is not a key of [mapa_norm] becomes a
    missing value (NaN), not the text "Sin demarcar". *)
Theorem unmatched_region_fallback (region Region : string) :
  Forall (λ b, ILIKE (TRIM region) b.1 = false) region_case →
  Region ∉ mapa_norm_items.*1 →
  region_norm_sql region = TRIM region
  ∧ region_norm_geo Region = None
  ∧ region_norm_geo Region ≠ Some "Sin demarcar".
Proof.
  intros Hno Hkey.
  assert (region_norm_geo Region = None) as Hnone
    by (by apply not_elem_of_list_to_map_1).
  split; [by apply case_when_no_match|].
  split; [done|]. by rewrite Hnone.
Qed.

Lemma unmatched_region_fallback_witness :
  region_norm_sql "  Isla de Pascua " = TRIM "  Isla de Pascua "
  ∧ region_norm_geo "Isla de Pascua" = None
  ∧ region_norm_geo "Isla de Pascua" ≠ Some "Sin demarcar".
Proof.
  apply (unmatched_region_fallback "  Isla de Pascua " "Isla de Pascua").
  - apply (bool_decide_unpack _). vm_compute. exact I.
  - apply (bool_decide_unpack _). vm_compute. exact I.
Defined.

(** C7, the claim as stated fails on the geometry side: "Isla de Pascua"
    is no key of [mapa_norm] and is not mapped to "Sin demarcar". *)
Lemma geo_fallback_is_not_sin_demarcar :
  ("Isla de Pascua" ∉ mapa_norm_items.*1)
  ∧ region_norm_geo "Isla de Pascua" ≠ Some "Sin demarcar".
Proof.
  split.
  - apply (bool_decide_unpack _). vm_compute. exact I.
  - vm_compute. discriminate.
Qed.

(** Two spellings of one region end in one group. *)
Example region_norm_sql_tarapaca :
  region_norm_sql "Tarapacá" = "Tarapacá"
  ∧ region_norm_sql "tarapacá " = "Tarapacá"
  ∧ region_norm_sql " METROPOLITANA (RM)" = "Metropolitana de Santiago".
Proof. repeat split; vm_compute; reflexivity. Qed.

(** "Sin demarcar" is the result of one key only. *)
Lemma region_norm_geo_sin_demarcar Region :
  region_norm_geo Region = Some "Sin demarcar" ↔ Region = "Zona sin demarcar".
Proof.
  split.
  - intros Hl. unfold region_norm_geo, mapa_norm in Hl.
    apply elem_of_list_to_map_2 in Hl.
    apply list_elem_of_In in Hl. simpl in Hl.
    repeat (destruct Hl as [Hl | Hl]; [by inversion Hl|]). done.
  - intros ->. vm_compute. reflexivity.
Qed.

(** ** filtrar_emisiones *)

Section filter.

Lemma applies_no_criterion x : no_criterion x → applies x = false.
Proof. by intros [-> | ->]. Qed.

Lemma elem_of_filtrar_emisiones df rubro contaminante region anio_min anio_max row :
  row ∈ filtrar_emisiones df rubro contaminante region anio_min anio_max ↔
    row ∈ df
    ∧ (applies rubro → Some (rubro_vu row) = rubro)
    ∧ (applies contaminante → contaminantes row = contaminante)
    ∧ (applies region → Some (region_norm row) = region)
    ∧ (∀ lo hi, anio_min = Some lo → anio_max = Some hi →
         (lo ≤ period row)%Z ∧ (period row ≤ hi)%Z).
Proof.
  unfold filtrar_emisiones.
  destruct (applies rubro), (applies contaminante), (applies region),
    anio_min as [lo|], anio_max as [hi|];
    rewrite ?list_elem_of_filter; simpl;
    (split;
     [ intros H; repeat split; try tauto; try intros lo' hi' ? ?
     | intros (? & ? & ? & ? & Hy); repeat split; auto; try by eapply Hy ]).
  all: try done; simplify_eq; tauto.
Qed.

End filter.

(** C3.  When rubro, contaminante and region are each absent or the
    sentinel "Todos" and both year bounds are absent, [filtrar_emisiones]
    returns its input: same rows, same order. *)
Theorem filtrar_emisiones_no_criteria df rubro contaminante region :
  no_criterion rubro → no_criterion contaminante → no_criterion region →
  filtrar_emisiones df rubro contaminante region None None = df.
Proof.
  intros Hr Hc Hg. unfold filtrar_emisiones.
  by rewrite !applies_no_criterion.
Qed.

(** C4.  With exactly one year bound absent the year range is not
    applied: the result is that of the call without year bounds, and a
    row passes exactly when it passes the three other criteria, whatever
    its period. *)
Theorem filtrar_emisiones_partial_years
    df rubro contaminante region anio_min anio_max :
  (anio_min = None ∧ anio_max ≠ None) ∨ (anio_min ≠ None ∧ anio_max = None) →
  filtrar_emisiones df rubro contaminante region anio_min anio_max
    = filtrar_emisiones df rubro contaminante region None None
  ∧ ∀ row,
      row ∈ filtrar_emisiones df rubro contaminante region anio_min anio_max ↔
        row ∈ df
        ∧ (applies rubro → Some (rubro_vu row) = rubro)
        ∧ (applies contaminante → contaminantes row = contaminante)
        ∧ (applies region → Some (region_norm row) = region).
Proof.
  intros Hone. split.
  - unfold filtrar_emisiones.
    destruct Hone as [[-> _] | [_ ->]]; [done|]. by destruct anio_min.
  - intros row. rewrite elem_of_filtrar_emisiones.
    destruct Hone as [[-> _] | [_ ->]];
      (split; [tauto | intros (? & ? & ? & ?); repeat split; auto; done]).
Qed.

Lemma filtrar_emisiones_no_criteria_witness :
  filtrar_emisiones Sample.frame (Some "Todos") None (Some "Todos") None None
    = Sample.frame.
Proof.
  apply filtrar_emisiones_no_criteria; [by right | by left | by right].
Defined.

Lemma filtrar_emisiones_partial_years_witness :
  filtrar_emisiones Sample.frame None None (Some "Maule") (Some 2019%Z) None
    = filtrar_emisiones Sample.frame None None (Some "Maule") None None
  ∧ ∀ row,
      row ∈ filtrar_emisiones Sample.frame None None (Some "Maule") (Some 2019%Z) None ↔
        row ∈ Sample.frame
        ∧ (applies None → Some (rubro_vu row) = None)
        ∧ (applies None → contaminantes row = None)
        ∧ (applies (Some "Maule") → Some (region_norm row) = Some "Maule").
Proof.
  apply (filtrar_emisiones_partial_years
           Sample.frame None None (Some "Maule") (Some 2019%Z) None).
  right. split; [discriminate | reflexivity].
Defined.

(** Only "Todos" is a sentinel: the text "all" is an ordinary rubro, and
    the empty text is falsy and filters nothing. *)
Example filtrar_emisiones_literal_all :
  filtrar_emisiones Sample.frame (Some "all") None None None None = []
  ∧ filtrar_emisiones Sample.frame (Some "") None None None None = Sample.frame.
Proof. split; vm_compute; reflexivity. Qed.

(** The row of 2018 passes although the lower bound 2019 was given. *)
Example partial_years_keeps_2018 :
  filtrar_emisiones Sample.frame None None (Some "Maule") (Some 2019%Z) None
    = [Sample.maule_2018; Sample.maule_2021].
Proof. vm_compute. reflexivity. Qed.

(** ** Sums *)

Section sums.

Lemma Qsum_app l k : (Qsum (l ++ k) == Qsum l + Qsum k)%Q.
Proof.
  induction l as [|x l IH]; simpl.
  - ring.
  - rewrite IH. ring.
Qed.

#[global] Instance Qsum_Permutation : Proper (Permutation ==> Qeq) Qsum.
Proof.
  induction 1 as [|x l l' _ IH|x y l|l l' l'' _ IH1 _ IH2]; simpl.
  - reflexivity.
  - by rewrite IH.
  - ring.
  - by rewrite IH1.
Qed.

Lemma sum_emisiones_nil : sum_emisiones [] = 0%Q.
Proof. reflexivity. Qed.

Lemma sum_emisiones_cons row df :
  sum_emisiones (row :: df) = (emisiones row + sum_emisiones df)%Q.
Proof. reflexivity. Qed.

Lemma Series_sum_nil {K} : Series_sum (@nil (K * Q)) = 0%Q.
Proof. reflexivity. Qed.

Lemma Series_sum_cons {K} (e : K * Q) (s : Series K) :
  Series_sum (e :: s) = (e.2 + Series_sum s)%Q.
Proof. reflexivity. Qed.

Lemma Series_sum_Permutation {K} (s t : Series K) :
  s ≡ₚ t → (Series_sum s == Series_sum t)%Q.
Proof. intros Hp. unfold Series_sum. by rewrite Hp. Qed.

End sums.

(** ** groupby *)

Section groupby.
Context {K : Type} `{Countable K}.
Implicit Types (m acc : gmap K Q) (key : emission → option K).

Lemma map_sum_insert m k v :
  m !! k = None →
  (Series_sum (map_to_list (<[k:=v]> m)) == v + Series_sum (map_to_list m))%Q.
Proof.
  intros Hk. rewrite (Series_sum_Permutation _ _ (map_to_list_insert m k v Hk)).
  rewrite Series_sum_cons. reflexivity.
Qed.

Lemma map_sum_delete m k q :
  m !! k = Some q →
  (Series_sum (map_to_list m) == q + Series_sum (map_to_list (delete k m)))%Q.
Proof.
  intros Hk. rewrite <- (insert_delete_id m k q Hk) at 1.
  apply map_sum_insert, lookup_delete_eq.
Qed.

Lemma group_add_sum key acc row k :
  key row = Some k →
  (Series_sum (map_to_list (group_add key acc row))
     == Series_sum (map_to_list acc) + emisiones row)%Q.
Proof.
  intros Hk. unfold group_add. rewrite Hk.
  destruct (acc !! k) as [q|] eqn:Hq; simpl.
  - rewrite <- insert_delete_eq.
    rewrite map_sum_insert by apply lookup_delete_eq.
    rewrite (map_sum_delete acc k q Hq). ring.
  - rewrite map_sum_insert by done. ring.
Qed.

(** The totals of the groups add up to the quantities of the rows that
    have a key. *)
Lemma group_sums_total key df acc :
  (Series_sum (map_to_list (foldl (group_add key) acc df))
     == Series_sum (map_to_list acc)
        + sum_emisiones (filter (λ row, is_Some (key row)) df))%Q.
Proof.
  revert acc. induction df as [|row df IH]; intros acc.
  - rewrite filter_nil, sum_emisiones_nil. simpl. ring.
  - simpl foldl. rewrite IH. destruct (key row) as [k|] eqn:Hk.
    + rewrite filter_cons_True by (by rewrite Hk).
      rewrite (group_add_sum key acc row k Hk), sum_emisiones_cons. ring.
    + rewrite filter_cons_False by (rewrite Hk; by intros [? ?]).
      unfold group_add. rewrite Hk. reflexivity.
Qed.

(** The entry of a key is the sum over the rows that carry the key. *)
Lemma group_sums_lookup key df acc k :
  (default 0 (foldl (group_add key) acc df !! k)
     == default 0 (acc !! k)
        + sum_emisiones (filter (λ row, key row = Some k) df))%Q.
Proof.
  revert acc. induction df as [|row df IH]; intros acc.
  - rewrite filter_nil, sum_emisiones_nil. simpl. ring.
  - simpl foldl. rewrite IH. unfold group_add.
    destruct (key row) as [k'|] eqn:Hk.
    + destruct (decide (k' = k)) as [->|Hne].
      * rewrite filter_cons_True by done. rewrite lookup_insert_eq.
        rewrite sum_emisiones_cons. simpl. ring.
      * rewrite filter_cons_False by congruence.
        rewrite lookup_insert_ne by done. reflexivity.
    + rewrite filter_cons_False by congruence. reflexivity.
Qed.

(** A key has an entry exactly when some row carries it. *)
Lemma group_sums_is_Some key df acc k :
  is_Some (foldl (group_add key) acc df !! k) ↔
    is_Some (acc !! k) ∨ ∃ row, row ∈ df ∧ key row = Some k.
Proof.
  revert acc. induction df as [|row df IH]; intros acc; simpl.
  - split; [by left|]. intros [?|(row & Hin & _)]; [done|]. by inversion Hin.
  - rewrite IH. unfold group_add.
    destruct (key row) as [k'|] eqn:Hk.
    + destruct (decide (k' = k)) as [->|Hne].
      * rewrite lookup_insert_eq. split.
        -- intros _. right. exists row. split; [apply list_elem_of_here | done].
        -- intros _. left. by eexists.
      * rewrite lookup_insert_ne by done. split.
        -- intros [?|(r & Hin & Hr)]; [by left|].
           right. exists r. split; [by apply list_elem_of_further | done].
        -- intros [?|(r & Hin & Hr)]; [by left|].
           apply elem_of_cons in Hin as [->|Hin]; [congruence|].
           right. by exists r.
    + split.
      * intros [?|(r & Hin & Hr)]; [by left|].
        right. exists r. split; [by apply list_elem_of_further | done].
      * intros [?|(r & Hin & Hr)]; [by left|].
        apply elem_of_cons in Hin as [->|Hin]; [congruence|].
        right. by exists r.
Qed.

Lemma groupby_sum_Permutation (R : relation K) `{!RelDecision R} key df :
  groupby_sum R key df ≡ₚ map_to_list (group_sums key df).
Proof. apply merge_sort_Permutation. Qed.

Lemma sort_values_Permutation ascending (s : Series K) :
  sort_values ascending s ≡ₚ s.
Proof. destruct ascending; apply merge_sort_Permutation. Qed.

Lemma elem_of_groupby_sum (R : relation K) `{!RelDecision R} key df k q :
  (k, q) ∈ groupby_sum R key df →
  (∃ row, row ∈ df ∧ key row = Some k)
  ∧ (q == sum_emisiones (filter (λ row, key row = Some k) df))%Q.
Proof.
  rewrite groupby_sum_Permutation, elem_of_map_to_list. intros Hq.
  unfold group_sums in Hq. split.
  - assert (is_Some (foldl (group_add key) ∅ df !! k)) as Hs by by eexists.
    apply group_sums_is_Some in Hs as [Hs|Hs]; [|done].
    rewrite lookup_empty in Hs. by destruct Hs.
  - pose proof (group_sums_lookup key df ∅ k) as Hl.
    rewrite Hq, lookup_empty in Hl. cbn [from_option id] in Hl.
    rewrite Hl. ring.
Qed.

Lemma groupby_sum_keys_NoDup (R : relation K) `{!RelDecision R} key df :
  NoDup (groupby_sum R key df).*1.
Proof.
  rewrite groupby_sum_Permutation. apply NoDup_fst_map_to_list.
Qed.

Lemma groupby_sum_total (R : relation K) `{!RelDecision R} key df :
  (Series_sum (groupby_sum R key df)
     == sum_emisiones (filter (λ row, is_Some (key row)) df))%Q.
Proof.
  rewrite (Series_sum_Permutation _ _ (groupby_sum_Permutation R key df)).
  unfold group_sums. rewrite group_sums_total.
  rewrite map_to_list_empty, Series_sum_nil. ring.
Qed.

End groupby.

(** ** Sorting by value and taking the head *)

Section ranking.
Context {K : Type} `{Countable K}.

#[global] Instance value_desc_trans : Transitive (@value_desc K).
Proof. intros a b c Hab Hbc. unfold value_desc in *. by eapply Qle_trans. Qed.

#[global] Instance value_desc_total : Total (@value_desc K).
Proof.
  intros a b. unfold value_desc.
  destruct (Qlt_le_dec a.2 b.2) as [Hlt | Hle].
  - right. by apply Qlt_le_weak.
  - by left.
Qed.

#[global] Instance value_asc_trans : Transitive (@value_asc K).
Proof. intros a b c Hab Hbc. unfold value_asc in *. by eapply Qle_trans. Qed.

#[global] Instance value_asc_total : Total (@value_asc K).
Proof.
  intros a b. unfold value_asc.
  destruct (Qlt_le_dec b.2 a.2) as [Hlt | Hle].
  - right. by apply Qlt_le_weak.
  - by left.
Qed.


Lemma elem_of_take_1 {A} (x : A) n (l : list A) : x ∈ take n l → x ∈ l.
Proof.
  intros Hx. rewrite <- (take_drop n l). apply elem_of_app. by left.
Qed.

Lemma sort_values_desc_sorted (s : Series K) :
  StronglySorted value_desc (sort_values false s).
Proof. apply (StronglySorted_merge_sort _). Qed.


End ranking.

Lemma filter_all {A} (P : A → Prop) `{!∀ x, Decision (P x)} (l : list A) :
  (∀ x, P x) → filter P l = l.
Proof.
  intros HP. induction l as [|x l IH]; [done|].
  rewrite filter_cons_True by done. by rewrite IH.
Qed.

Lemma by_facility_Some row i n :
  by_facility row = Some (i, n) ↔
    id_vu row = Some i ∧ nombre_establecimiento row = Some n.
Proof.
  unfold by_facility.
  destruct (id_vu row), (nombre_establecimiento row);
    split; [intros [= -> ->] | intros [[= ->] [= ->]] | ..]; try done;
    try (intros [? ?]; done).
Qed.

Lemma elem_of_top10 df_r e :
  e ∈ top10 df_r → e ∈ groupby_sum facility_le by_facility df_r.
Proof.
  unfold top10, Series_head. intros He. apply elem_of_take_1 in He.
  by rewrite sort_values_Permutation in He.
Qed.

(** C1, the claim as stated fails in binary64: with rows of 0.1, 0.2 and
    0.4 tonnes, the first and the last in one region, the totals by region
    are 0.2 and 0.5 and add up to 0.7 (0x1.6666666666666p-1), while the
    three rows add up to 0.7000000000000001 (0x1.6666666666667p-1). *)
Lemma emis_region_float64_not_conserved :
  Float64.emis_region Float64.three_rows
    = [("Biobío", 0x1.999999999999ap-3%float); ("Atacama", 0x1p-1%float)]
  ∧ Float64.Series_sum (Float64.emis_region Float64.three_rows)
    = 0x1.6666666666666p-1%float
  ∧ Float64.sum_emisiones Float64.three_rows = 0x1.6666666666667p-1%float
  ∧ Float64.Series_sum (Float64.emis_region Float64.three_rows)
    ≠ Float64.sum_emisiones Float64.three_rows.
Proof.
  split; [|split; [|split]]; vm_compute; [reflexivity..|discriminate].
Qed.

(** C1, as amended.  With exact additions, every quantity taken as the
    rational number it denotes, the totals of the regions add up to the
    total of the input rows: grouping by region and summing loses and adds
    nothing. *)
Theorem emis_region_conserves_total df :
  (Series_sum (emis_region df) == sum_emisiones df)%Q.
Proof.
  unfold emis_region.
  rewrite (Series_sum_Permutation _ _ (sort_values_Permutation true _)).
  rewrite groupby_sum_total.
  rewrite filter_all; [reflexivity|]. intros row. by eexists.
Qed.

(** The same holds for the grouping by rubro of the second tab. *)
Lemma emis_rubro_conserves_total df :
  (Series_sum (emis_rubro df) == sum_emisiones df)%Q.
Proof.
  unfold emis_rubro.
  rewrite (Series_sum_Permutation _ _ (sort_values_Permutation true _)).
  rewrite groupby_sum_total.
  rewrite filter_all; [reflexivity|]. intros row. by eexists.
Qed.


Example top10_sample :
  top10 Sample.frame = [("E2", "Planta Dos", 2340000%Q); ("E1", "Planta Uno", 800%Q)].
Proof. vm_compute. reflexivity. Qed.

Example emis_region_sample :
  emis_region [Sample.tarapaca_500; Sample.tarapaca_300] = [("Tarapacá", 800%Q)].
Proof. vm_compute. reflexivity. Qed.

(** ** Number formatting *)

Section format.

#[global] Instance round_half_even_proper : Proper (Qeq ==> eq) round_half_even.
Proof.
  intros x y Hxy. unfold round_half_even.
  rewrite (Qfloor_comp x y Hxy).
  assert ((x - inject_Z (Qfloor y) ?= 1 # 2)%Q
          = (y - inject_Z (Qfloor y) ?= 1 # 2)%Q) as ->; [|done].
  apply Qcompare_comp; [by rewrite Hxy | reflexivity].
Qed.

Lemma Qfloor_nonneg x : (0 <= x)%Q → (0 ≤ Qfloor x)%Z.
Proof. intros Hx. apply (Qfloor_resp_le 0 x Hx). Qed.

Lemma round_half_even_nonneg x : (0 <= x)%Q → (0 ≤ round_half_even x)%Z.
Proof.
  intros Hx. pose proof (Qfloor_nonneg x Hx). unfold round_half_even.
  destruct (_ ?= _)%Q; [destruct (Z.even _)|..]; lia.
Qed.

Lemma round_half_even_small x :
  (0 <= x)%Q → (x < 1 # 2)%Q → round_half_even x = 0%Z.
Proof.
  intros H0 Hhalf.
  assert (Qfloor x = 0%Z) as Hf.
  { pose proof (Qfloor_nonneg x H0). pose proof (Qfloor_le x) as Hle.
    assert (inject_Z (Qfloor x) < inject_Z 1)%Q as Hlt.
    { eapply Qle_lt_trans; [exact Hle|]. eapply Qlt_trans; [exact Hhalf|]. done. }
    rewrite <- Zlt_Qlt in Hlt. lia. }
  unfold round_half_even. rewrite Hf.
  assert ((x - inject_Z 0 ?= 1 # 2)%Q = Lt) as ->; [|done].
  apply Qlt_alt. unfold Qminus. change (- inject_Z 0)%Q with 0%Q.
  by rewrite Qplus_0_r.
Qed.

Lemma append_empty_r s : s +:+ "" = s.
Proof.
  induction s as [|c s IH]; [done|].
  change (String c s +:+ "") with (String c (s +:+ "")). by f_equal.
Qed.

Lemma append_assoc s t u : (s +:+ t) +:+ u = s +:+ t +:+ u.
Proof.
  induction s as [|c s IH]; [done|].
  change (String c (s +:+ t) +:+ u = String c (s +:+ t +:+ u)).
  change (String c ((s +:+ t) +:+ u) = String c (s +:+ t +:+ u)). by f_equal.
Qed.

Lemma facility_label_quantity id_vu nombre val :
  facility_label id_vu nombre val
  = id_vu +:+ " – " +:+ nombre +:+ " (" +:+ facility_quantity val +:+ ")".
Proof.
  unfold facility_label, facility_quantity. by rewrite (append_assoc _ " M" ")").
Qed.

Lemma ge_true x y : ge x y = true ↔ (y <= x)%Q.
Proof. apply Qle_bool_iff. Qed.

Lemma ge_false x y : ge x y = false ↔ (x < y)%Q.
Proof.
  unfold ge. rewrite <- not_true_iff_false, Qle_bool_iff. split.
  - apply Qnot_le_lt.
  - apply Qlt_not_le.
Qed.

Lemma format_f_0_nonneg x :
  (0 <= x)%Q → format_f 0 x = str_of_int (round_half_even x).
Proof.
  intros Hx. unfold format_f.
  assert (Qle_bool 0 x = true) as -> by by apply Qle_bool_iff.
  change (10 ^ Z.of_nat 0)%Z with 1%Z. rewrite Z.div_1_r.
  assert (Qabs x * inject_Z 1 == x)%Q as ->.
  { rewrite (Qabs_pos x Hx). apply Qmult_1_r. }
  simpl. apply append_empty_r.
Qed.

Lemma int_of_float_nonneg x : (0 <= x)%Q → int_of_float x = Qfloor x.
Proof.
  destruct x as [n d]. unfold int_of_float, Qfloor, Qle. simpl.
  intros Hn. apply Z.quot_div_nonneg; lia.
Qed.

Lemma Qdiv_nonneg x (d : Q) : (0 <= x)%Q → (0 < d)%Q → (0 <= x / d)%Q.
Proof.
  intros Hx Hd. apply Qle_shift_div_l; [done|]. by rewrite Qmult_0_l.
Qed.

Lemma is_digit_digit n : is_digit (digit (n `mod` 10)).
Proof.
  pose proof (Z.mod_pos_bound n 10 ltac:(lia)) as Hb.
  unfold is_digit, digit, byte_of. rewrite N_ascii_embedding; lia.
Qed.

(** The fixed-point format with two decimals: an optional sign, the whole
    part, a point and exactly two digits. *)
Lemma format_f_2_shape x :
  ∃ sign whole d1 d2,
    format_f 2 x = sign +:+ str_of_int whole +:+ "." +:+ String d1 (String d2 "")
    ∧ (sign = "" ∨ sign = "-") ∧ (0 ≤ whole)%Z ∧ is_digit d1 ∧ is_digit d2.
Proof.
  set (m := round_half_even (Qabs x * inject_Z 100)).
  exists (if Qle_bool 0 x then "" else "-"), (m / 100)%Z,
    (digit ((m `mod` 100 / 10) `mod` 10)), (digit ((m `mod` 100) `mod` 10)).
  split; [reflexivity|]. split; [destruct (Qle_bool 0 x); auto|].
  split; [|split; apply is_digit_digit].
  apply Z.div_pos; [|lia]. apply round_half_even_nonneg.
  apply Qmult_le_0_compat; [apply Qabs_nonneg | done].
Qed.

(** Below 5000 tonnes a facility is listed with "0.00 M". *)
Lemma facility_quantity_below_5000 val :
  (0 <= val)%Q → (val < 5000)%Q → facility_quantity val = "0.00 M".
Proof.
  intros H0 Hlt. unfold facility_quantity, format_f.
  assert (0 <= val / 1000000)%Q as Hq by by apply Qdiv_nonneg.
  assert (Qle_bool 0 (val / 1000000) = true) as -> by by apply Qle_bool_iff.
  assert (round_half_even (Qabs (val / 1000000) * inject_Z (10 ^ Z.of_nat 2)) = 0%Z)
    as ->; [|reflexivity].
  assert (Qabs (val / 1000000) * inject_Z (10 ^ Z.of_nat 2) == val / 10000)%Q as ->.
  { rewrite (Qabs_pos _ Hq). change (inject_Z (10 ^ Z.of_nat 2)) with 100%Q. field. }
  apply round_half_even_small.
  - by apply Qdiv_nonneg.
  - apply Qlt_shift_div_r; [done|].
    eapply Qlt_le_trans; [exact Hlt|]. vm_compute. discriminate.
Qed.

End format.

(** C5, as amended.  The cell text gives 999 as "999", 1500 as "1k" and
    2340000 as "2.3M", and the facility label gives 2340000 as "2.34 M".
    The cell text and the hover string use the same thresholds and the same
    one-decimal M form; from 1000 up and below 1000 the cell text truncates
    the number ([int]) while the hover string rounds it to the nearest
    integer, ties to even ([:.0f]), and the hover string ends in " Ton". *)
Theorem heatmap_number_formats (v : Q) :
  (0 <= v)%Q →
  cell_text 999 = "999" ∧ cell_text 1500 = "1k" ∧ cell_text 2340000 = "2.3M"
  ∧ facility_quantity 2340000 = "2.34 M"
  ∧ if ge v 1000000 then
      cell_text v = format_f 1 (v / 1000000) +:+ "M"
      ∧ emis_str v = format_f 1 (v / 1000000) +:+ "M Ton"
    else if ge v 1000 then
      cell_text v = str_of_int (Qfloor (v / 1000)) +:+ "k"
      ∧ emis_str v = str_of_int (round_half_even (v / 1000)) +:+ "k Ton"
    else
      cell_text v = str_of_int (Qfloor v)
      ∧ emis_str v = str_of_int (round_half_even v) +:+ " Ton".
Proof.
  intros Hv.
  do 4 (split; [vm_compute; reflexivity|]).
  unfold cell_text, emis_str.
  destruct (ge v 1000000); [done|].
  destruct (ge v 1000).
  - rewrite int_of_float_nonneg, format_f_0_nonneg by by apply Qdiv_nonneg.
    done.
  - by rewrite int_of_float_nonneg, format_f_0_nonneg.
Qed.

Lemma heatmap_number_formats_witness :
  cell_text 999 = "999" ∧ cell_text 1500 = "1k" ∧ cell_text 2340000 = "2.3M"
  ∧ facility_quantity 2340000 = "2.34 M"
  ∧ cell_text 1999 = str_of_int (Qfloor (1999 / 1000)) +:+ "k"
  ∧ emis_str 1999 = str_of_int (round_half_even (1999 / 1000)) +:+ "k Ton".
Proof.
  apply (heatmap_number_formats 1999). vm_compute. discriminate.
Defined.

(** C5, the claim as stated fails for the hover string: the cell text
    shows 1500 as "1k" (truncation), the hover string as "2k Ton"
    (rounding), so one rule does not give both. *)
Lemma emis_str_rounds_where_cell_text_truncates :
  cell_text 1500 = "1k" ∧ emis_str 1500 = "2k Ton"
  ∧ emis_str 1500 ≠ cell_text 1500 +:+ " Ton".
Proof.
  split; [|split]; vm_compute; [reflexivity | reflexivity | discriminate].
Qed.

Example emis_str_below_1000 :
  cell_text (1999 # 2) = "999" ∧ emis_str (1999 # 2) = "1000 Ton".
Proof. split; vm_compute; reflexivity. Qed.

(** C9.  Every entry of a "Top 10" list, in the tooltips by region, by
    rubro and by heatmap cell alike, shows its quantity divided by 1e6
    with exactly two decimals and " M", whatever the magnitude: there is no
    "k" form and no plain form, and 500 is shown as "0.00 M". *)
Theorem facility_label_always_millions :
  (∀ top : Series (string * string),
     lista_html top
     = (λ e, e.1.1 +:+ " – " +:+ e.1.2 +:+ " ("
               +:+ format_f 2 (e.2 / 1000000) +:+ " M)") <$> top)
  ∧ (∀ df, top10_list df
           = (λ e, join "<br>"
                     (lista_html (top10 (filter (λ row, region_norm row = e.1) df))))
               <$> emis_region df)
  ∧ (∀ df, top10_rubro df
           = (λ e, join "<br>"
                     (lista_html (top10 (filter (λ row, rubro_vu row = e.1) df))))
               <$> emis_rubro df)
  ∧ (∀ df region year,
       top10_str df region year = "Sin datos"
       ∨ top10_str df region year
         = join "<br>"
             (lista_html
                (top10 (filter (λ row, region_norm row = region ∧ period row = year) df))))
  ∧ (∀ x, ∃ sign whole d1 d2,
       format_f 2 x = sign +:+ str_of_int whole +:+ "." +:+ String d1 (String d2 "")
       ∧ (sign = "" ∨ sign = "-") ∧ (0 ≤ whole)%Z ∧ is_digit d1 ∧ is_digit d2)
  ∧ facility_quantity 500 = "0.00 M"
  ∧ facility_label "E1" "Planta Uno" 500 = "E1 – Planta Uno (0.00 M)".
Proof.
  split; [done|]. split; [done|]. split; [done|].
  split; [|split; [exact format_f_2_shape|split; vm_compute; reflexivity]].
  intros df region year. unfold top10_str.
  destruct (filter _ df); [by left | by right].
Qed.

(** ** The heatmap *)

Section heatmap.
Implicit Types (df : DataFrame) (region : string) (year : Z).

Lemma pivot_entries df :
  list_to_map (groupby_sum region_period_le by_region_period df)
  = group_sums by_region_period df.
Proof.
  etrans; [|apply list_to_map_to_list].
  apply list_to_map_proper.
  - apply groupby_sum_keys_NoDup.
  - apply groupby_sum_Permutation.
Qed.

Lemma group_sums_region_period df region year :
  is_Some (group_sums by_region_period df !! (region, year)) ↔
    ∃ row, row ∈ df ∧ region_norm row = region ∧ period row = year.
Proof.
  unfold group_sums. rewrite group_sums_is_Some, lookup_empty. split.
  - intros [[? [=]] | (row & Hin & Hk)]. exists row.
    unfold by_region_period in Hk. by simplify_eq.
  - intros (row & Hin & <- & <-). right. by exists row.
Qed.

Lemma elem_of_pivot_keys df region year :
  (region, year) ∈ (groupby_sum region_period_le by_region_period df).*1 ↔
    ∃ row, row ∈ df ∧ region_norm row = region ∧ period row = year.
Proof.
  rewrite groupby_sum_Permutation, <- group_sums_region_period.
  rewrite list_elem_of_fmap. split.
  - intros ([k q] & -> & Hin). apply elem_of_map_to_list in Hin. by eexists.
  - intros [q Hq]. exists (region, year, q). split; [done|].
    by apply elem_of_map_to_list.
Qed.

(** The rows of the pivot are the regions that occur, its columns the
    years that occur. *)
Lemma elem_of_pivot_index df region :
  region ∈ index (pivot df) ↔ region ∈ region_norm <$> df.
Proof.
  unfold pivot, unstack; simpl.
  rewrite merge_sort_Permutation, elem_of_remove_dups, !list_elem_of_fmap. split.
  - intros ([r y] & -> & Hk). apply elem_of_pivot_keys in Hk as (row & ? & ? & ?).
    by exists row.
  - intros (row & -> & Hin). exists (region_norm row, period row). split; [done|].
    apply elem_of_pivot_keys. by exists row.
Qed.

Lemma elem_of_pivot_columns df year :
  year ∈ columns (pivot df) ↔ year ∈ period <$> df.
Proof.
  unfold pivot, unstack; simpl.
  rewrite merge_sort_Permutation, elem_of_remove_dups, !list_elem_of_fmap. split.
  - intros ([r y] & -> & Hk). apply elem_of_pivot_keys in Hk as (row & ? & ? & ?).
    by exists row.
  - intros (row & -> & Hin). exists (region_norm row, period row). split; [done|].
    apply elem_of_pivot_keys. by exists row.
Qed.

(** Every position of the grid holds a value: the entry of the series,
    or the fill value. *)
Lemma pivot_at df i j region year :
  index (pivot df) !! i = Some region →
  columns (pivot df) !! j = Some year →
  at_ij (values (pivot df)) i j
  = Some (default 0%Q (group_sums by_region_period df !! (region, year))).
Proof.
  intros Hi Hj. unfold at_ij, pivot, unstack in *; simpl in *.
  rewrite list_lookup_fmap, Hi. simpl.
  rewrite list_lookup_fmap, Hj. simpl.
  by rewrite pivot_entries.
Qed.

Lemma hovertext_at df i j region year z :
  index (pivot df) !! i = Some region →
  columns (pivot df) !! j = Some year →
  at_ij (values (pivot df)) i j = Some z →
  at_ij (hovertext df (pivot df)) i j
  = Some (Some (hover_html region year (emis_str z) (top10_str df region year))).
Proof.
  intros Hi Hj Hz. unfold at_ij at 1. unfold hovertext.
  rewrite list_lookup_imap, Hi.
  cbn [fmap option_fmap option_map mbind option_bind].
  rewrite list_lookup_imap, Hj.
  cbn [fmap option_fmap option_map]. by rewrite Hz.
Qed.

Lemma cell_value_sum df region year :
  (default 0 (group_sums by_region_period df !! (region, year))
   == sum_emisiones
        (filter (λ row, region_norm row = region ∧ period row = year) df))%Q.
Proof.
  unfold group_sums. rewrite group_sums_lookup, lookup_empty.
  erewrite (list_filter_iff _ (λ row, region_norm row = region ∧ period row = year)).
  - cbn [from_option id]. ring.
  - intros row. unfold by_region_period. split.
    + by intros [= -> ->].
    + by intros [-> ->].
Qed.

Lemma cell_value_missing df region year :
  (∀ row, row ∈ df → ¬ (region_norm row = region ∧ period row = year)) →
  group_sums by_region_period df !! (region, year) = None.
Proof.
  intros Hno. apply eq_None_not_Some. rewrite group_sums_region_period.
  intros (row & Hin & Hr & Hy). by eapply Hno.
Qed.

Lemma top10_str_missing df region year :
  (∀ row, row ∈ df → ¬ (region_norm row = region ∧ period row = year)) →
  top10_str df region year = "Sin datos".
Proof.
  intros Hno. unfold top10_str.
  destruct (filter _ df) as [|row rest] eqn:Hf; [done|].
  assert (row ∈ filter (λ row, region_norm row = region ∧ period row = year) df)
    as Hin by (rewrite Hf; apply list_elem_of_here).
  apply list_elem_of_filter in Hin as [Hp Hin]. by destruct (Hno row Hin).
Qed.

End heatmap.

(** C8.  For a region that occurs and a year that occurs, the pivot has a
    row for the region, a column for the year and a value at their
    crossing, which is the sum of the matching rows, and the hover text has
    a text there.  When no row has both that region and that year, the
    value is 0 and the "Top 10" part of the hover text is "Sin datos". *)
Theorem pivot_cell_always_present df region year :
  region ∈ region_norm <$> df →
  year ∈ period <$> df →
  ∃ i j z,
    index (pivot df) !! i = Some region
    ∧ columns (pivot df) !! j = Some year
    ∧ at_ij (values (pivot df)) i j = Some z
    ∧ (z == sum_emisiones
              (filter (λ row, region_norm row = region ∧ period row = year) df))%Q
    ∧ at_ij (hovertext df (pivot df)) i j
      = Some (Some (hover_html region year (emis_str z) (top10_str df region year)))
    ∧ ((∀ row, row ∈ df → ¬ (region_norm row = region ∧ period row = year)) →
       z = 0%Q ∧ top10_str df region year = "Sin datos").
Proof.
  intros Hr Hy.
  apply elem_of_pivot_index, list_elem_of_lookup in Hr as [i Hi].
  apply elem_of_pivot_columns, list_elem_of_lookup in Hy as [j Hj].
  exists i, j, (default 0%Q (group_sums by_region_period df !! (region, year))).
  pose proof (pivot_at df i j region year Hi Hj) as Hz.
  split; [done|]. split; [done|]. split; [done|].
  split; [apply cell_value_sum|].
  split; [by apply hovertext_at|].
  intros Hno. split.
  - by rewrite cell_value_missing.
  - by apply top10_str_missing.
Qed.

Lemma pivot_cell_always_present_witness :
  ∃ i j z,
    index (pivot Sample.frame) !! i = Some "Maule"
    ∧ columns (pivot Sample.frame) !! j = Some 2020%Z
    ∧ at_ij (values (pivot Sample.frame)) i j = Some z
    ∧ (z == sum_emisiones
              (filter (λ row, region_norm row = "Maule" ∧ period row = 2020%Z)
                 Sample.frame))%Q
    ∧ at_ij (hovertext Sample.frame (pivot Sample.frame)) i j
      = Some (Some (hover_html "Maule" 2020 (emis_str z)
                      (top10_str Sample.frame "Maule" 2020)))
    ∧ ((∀ row, row ∈ Sample.frame →
          ¬ (region_norm row = "Maule" ∧ period row = 2020%Z)) →
       z = 0%Q ∧ top10_str Sample.frame "Maule" 2020 = "Sin datos").
Proof.
  apply (pivot_cell_always_present Sample.frame "Maule" 2020%Z).
  - apply (bool_decide_unpack _). vm_compute. exact I.
  - apply (bool_decide_unpack _). vm_compute. exact I.
Defined.

Example pivot_sample :
  pivot Sample.frame
  = {| index := ["Maule"; "Tarapacá"];
       columns := [2018; 2020; 2021]%Z;
       values := [[2340000; 0; 1500]; [0; 800; 0]]%Q |}.
Proof. vm_compute. reflexivity. Qed.

Example hovertext_sample_empty_cell :
  at_ij (hovertext Sample.frame (pivot Sample.frame)) 0 1
  = Some (Some ("<b>Región:</b> Maule<br><b>Año:</b> 2020<br>"
                +:+ "<b>Emisiones:</b> 0 Ton<br><br>"
                +:+ "<b>Top 10 Establecimientos:</b><br>Sin datos")).
Proof. vm_compute. reflexivity. Qed.


(** ** The choropleth *)

Section choropleth.
Context {G : Type} (rotate : G → G).
Implicit Types (f : feature G) (m : merged G) (t : region_total) (df : DataFrame).

Lemma merge_left_elem left right m :
  m ∈ merge_left left right →
  m_feature m ∈ left
  ∧ ((matches right (m_feature m) = [] ∧ m_emisiones m = None)
     ∨ (∃ t, t ∈ matches right (m_feature m)
             ∧ m_emisiones m = Some (t_emisiones t))).
Proof.
  unfold merge_left. rewrite list_elem_of_bind. intros (f & Hm & Hf).
  destruct (matches right f) as [|t ts] eqn:Hts.
  - apply list_elem_of_singleton in Hm as ->. simpl. split; [done|]. by left.
  - apply list_elem_of_fmap in Hm as (t' & -> & Ht'). simpl.
    split; [done|]. right. exists t'. by rewrite Hts.
Qed.

Lemma merge_left_keeps_left left right f :
  f ∈ left → ∃ m, m ∈ merge_left left right ∧ m_feature m = f.
Proof.
  intros Hf. unfold merge_left. destruct (matches right f) as [|t ts] eqn:Hts.
  - exists {| m_feature := f; m_region_norm_y := None; m_emisiones := None |}.
    split; [|done]. apply list_elem_of_bind. exists f. split; [|done].
    rewrite Hts. apply list_elem_of_here.
  - exists {| m_feature := f; m_region_norm_y := Some (t_region_norm t);
              m_emisiones := Some (t_emisiones t) |}.
    split; [|done]. apply list_elem_of_bind. exists f. split; [|done].
    rewrite Hts. apply list_elem_of_here.
Qed.

Lemma elem_of_emis_region_total df t :
  t ∈ emis_region_total df →
  ∃ row, row ∈ df ∧ t_REGION_UP t = str_upper (region_norm row).
Proof.
  unfold emis_region_total. intros Ht.
  apply list_elem_of_fmap in Ht as ([k q] & -> & Hkq).
  apply elem_of_groupby_sum in Hkq as [(row & Hin & Hk) _].
  exists row. split; [done|]. unfold by_region in Hk. by simplify_eq.
Qed.

Lemma matches_nil df f :
  (∀ row, row ∈ df → Some (str_upper (region_norm row)) ≠ g_REGION_UP f) →
  matches (emis_region_total df) f = [].
Proof.
  intros Hno. unfold matches.
  destruct (filter _ (emis_region_total df)) as [|t ts] eqn:Hts; [done|].
  assert (t ∈ filter (λ t, Some (t_REGION_UP t) = g_REGION_UP f)
                (emis_region_total df)) as Ht
    by (rewrite Hts; apply list_elem_of_here).
  apply list_elem_of_filter in Ht as [Hkey Ht].
  apply elem_of_emis_region_total in Ht as (row & Hin & Hup).
  destruct (Hno row Hin). by rewrite <- Hup.
Qed.

Lemma elem_of_fillna_emisiones v rows m :
  m ∈ fillna_emisiones v rows →
  ∃ m', m' ∈ rows ∧ m_feature m = m_feature m'
        ∧ m_emisiones m = Some (default v (m_emisiones m')).
Proof.
  unfold fillna_emisiones. intros Hm.
  apply list_elem_of_fmap in Hm as (m' & -> & Hm'). by exists m'.
Qed.

End choropleth.

(** C10.  Every feature of the boundary frame has a row in the merged
    frame, every row of the merged frame has an emissions value, and the
    rows of a feature whose key REGION_UP is the upper-cased region of no
    filtered emissions row have the value 0. *)
Theorem geo_merged_keeps_every_feature
    {G : Type} (rotate : G → G) (file : list (string * G)) df (f : feature G) :
  f ∈ gdf_regiones rotate file →
  (∃ m, m ∈ geo_merged rotate file df ∧ m_feature m = f)
  ∧ Forall (λ m, is_Some (m_emisiones m)) (geo_merged rotate file df)
  ∧ ((∀ row, row ∈ df → Some (str_upper (region_norm row)) ≠ g_REGION_UP f) →
     Forall (λ m, m_feature m = f → m_emisiones m = Some 0%Q)
       (geo_merged rotate file df)).
Proof.
  intros Hf. unfold geo_merged. split; [|split].
  - destruct (merge_left_keeps_left _ (emis_region_total df) f Hf) as (m & Hm & Hmf).
    eexists. split.
    + unfold fillna_emisiones. apply list_elem_of_fmap. by exists m.
    + done.
  - apply Forall_forall. intros m Hm.
    apply elem_of_fillna_emisiones in Hm as (m' & _ & _ & ->). by eexists.
  - intros Hno. apply Forall_forall. intros m Hm Hmf.
    apply elem_of_fillna_emisiones in Hm as (m' & Hm' & Hfeat & ->).
    apply merge_left_elem in Hm' as [_ [[_ ->] | (t & Ht & _)]]; [done|].
    rewrite <- Hfeat, Hmf, (matches_nil df f Hno) in Ht. inversion Ht.
Qed.

Lemma geo_merged_keeps_every_feature_witness :
  let f := {| Region := "Región de Atacama"; geometry := 3;
              g_region_norm := Some "Atacama"; g_REGION_UP := Some "ATACAMA" |} in
  (∃ m, m ∈ geo_merged S Sample.regional Sample.frame ∧ m_feature m = f)
  ∧ Forall (λ m, is_Some (m_emisiones m)) (geo_merged S Sample.regional Sample.frame)
  ∧ ((∀ row, row ∈ Sample.frame →
        Some (str_upper (region_norm row)) ≠ g_REGION_UP f) →
     Forall (λ m, m_feature m = f → m_emisiones m = Some 0%Q)
       (geo_merged S Sample.regional Sample.frame)).
Proof.
  apply (geo_merged_keeps_every_feature S Sample.regional Sample.frame).
  vm_compute. apply list_elem_of_further, list_elem_of_here.
Defined.

Example geo_merged_sample :
  (λ m, (Region (m_feature m), g_REGION_UP (m_feature m), m_emisiones m))
    <$> geo_merged S Sample.regional Sample.frame
  = [("Región del Maule", Some "MAULE", Some 2341500%Q);
     ("Región de Atacama", Some "ATACAMA", Some 0%Q);
     ("Isla de Pascua", None, Some 0%Q)].
Proof. vm_compute. reflexivity. Qed.

(** * Further properties *)

(** ** filtrar_emisiones as one selection *)

Section filter_algebra.
Implicit Types (df : DataFrame) (r c g : option string) (lo hi : option Z).

Lemma filtrar_emisiones_filter df r c g lo hi :
  filtrar_emisiones df r c g lo hi = filter (passes r c g lo hi) df.
Proof.
  unfold filtrar_emisiones.
  destruct (applies r) eqn:Hr, (applies c) eqn:Hc, (applies g) eqn:Hg,
    lo as [a|], hi as [b|];
    rewrite ?list_filter_filter;
    try (apply list_filter_iff; intros row;
         unfold passes, year_in_range; rewrite Hr, Hc, Hg; simpl; tauto);
    symmetry; apply filter_all; intros row;
    unfold passes, year_in_range; rewrite Hr, Hc, Hg; simpl; tauto.
Qed.

End filter_algebra.

(** X1.  The filter only removes rows: its result is a sublist of the
    input, so no row is added, duplicated or moved. *)
Theorem filtrar_emisiones_sublist df r c g lo hi :
  filtrar_emisiones df r c g lo hi `sublist_of` df.
Proof. rewrite filtrar_emisiones_filter. apply sublist_filter. Qed.

(** X2.  Two filters in a row select the rows that pass both, whatever
    the order of the two calls; in particular a filter applied twice
    selects what it selects once. *)
Theorem filtrar_emisiones_twice df r1 c1 g1 lo1 hi1 r2 c2 g2 lo2 hi2 :
  filtrar_emisiones (filtrar_emisiones df r1 c1 g1 lo1 hi1) r2 c2 g2 lo2 hi2
  = filtrar_emisiones (filtrar_emisiones df r2 c2 g2 lo2 hi2) r1 c1 g1 lo1 hi1
  ∧ filtrar_emisiones (filtrar_emisiones df r1 c1 g1 lo1 hi1) r1 c1 g1 lo1 hi1
    = filtrar_emisiones df r1 c1 g1 lo1 hi1.
Proof.
  rewrite !filtrar_emisiones_filter, !list_filter_filter. split.
  - apply list_filter_iff. intros row. tauto.
  - apply list_filter_iff. intros row. tauto.
Qed.

(** X3.  One call with all criteria is the chain of four calls with one
    criterion each. *)
Theorem filtrar_emisiones_chain df r c g lo hi :
  filtrar_emisiones
    (filtrar_emisiones
       (filtrar_emisiones
          (filtrar_emisiones df r None None None None)
          None c None None None)
       None None g None None)
    None None None lo hi
  = filtrar_emisiones df r c g lo hi.
Proof.
  rewrite !filtrar_emisiones_filter, !list_filter_filter.
  apply list_filter_iff. intros row. unfold passes, year_in_range. simpl.
  destruct lo, hi; tauto.
Qed.

(** X4.  With both year bounds given every returned row has its period
    within the bounds, and an inverted range returns no row at all. *)
Theorem filtrar_emisiones_year_range df r c g (lo hi : Z) :
  Forall (λ row, (lo ≤ period row)%Z ∧ (period row ≤ hi)%Z)
    (filtrar_emisiones df r c g (Some lo) (Some hi))
  ∧ ((hi < lo)%Z → filtrar_emisiones df r c g (Some lo) (Some hi) = []).
Proof.
  rewrite filtrar_emisiones_filter. split.
  - apply Forall_forall. intros row Hrow.
    apply list_elem_of_filter in Hrow as [(_ & _ & _ & Hy) _]. exact Hy.
  - intros Hinv. induction df as [|row df IH]; [done|].
    rewrite filter_cons_False; [done|].
    intros (_ & _ & _ & Hy). unfold year_in_range in Hy. lia.
Qed.

(** ** The emissions query *)

Section loader.
Import Loader.

Lemma filter_Forall_id {A} (P : A → Prop) `{!∀ x, Decision (P x)} (l : list A) :
  Forall P l → filter P l = l.
Proof.
  induction 1 as [|x l Hx _ IH]; [done|].
  rewrite filter_cons_True by done. by rewrite IH.
Qed.

Lemma region_norm_sql_trimmed region :
  TRIM (region_norm_sql region) = region_norm_sql region.
Proof.
  destruct (case_when_cases region_case (TRIM region) (TRIM region)) as [Hd | Hin].
  - unfold region_norm_sql. rewrite Hd. apply TRIM_idem.
  - assert (Forall (λ c, TRIM c = c) region_case.*2) as Hfix.
    { apply (bool_decide_unpack _). vm_compute. exact I. }
    rewrite Forall_forall in Hfix. by apply Hfix.
Qed.

Lemma select_row_Some eh row :
  select_row eh = Some row →
  (2005 ≤ period row)%Z ∧ (period row ≤ 2023)%Z
  ∧ (∃ region, eh_region eh = Some region ∧ region_norm row = region_norm_sql region)
  ∧ eh_rubro_vu eh = Some (rubro_vu row)
  ∧ eh_cantidad_toneladas eh = Some (emisiones row).
Proof.
  unfold select_row.
  destruct (eh_period eh) as [p|], (eh_cantidad_toneladas eh) as [q|],
    (eh_region eh) as [region|], (eh_rubro_vu eh) as [rubro|]; try done.
  case_bool_decide as Hp; [|done]. intros [= <-]. simpl.
  split; [lia|]. split; [lia|]. split; [by exists region|]. done.
Qed.

End loader.

(** X5.  Every row that [load_emissions_data] returns has its period in
    2005..2023 and a region_norm in normal form: free of surrounding
    spaces and left unchanged by the normaliser. *)
Theorem load_emissions_data_rows (table : list Loader.emissions_hist) :
  Forall (λ row,
      (2005 ≤ period row)%Z ∧ (period row ≤ 2023)%Z
      ∧ TRIM (region_norm row) = region_norm row
      ∧ region_norm_sql (region_norm row) = region_norm row)
    (Loader.load_emissions_data table).
Proof.
  apply Forall_forall. intros row Hrow.
  apply list_elem_of_omap in Hrow as (eh & _ & Hsel).
  apply select_row_Some in Hsel as (Hlo & Hhi & (region & _ & ->) & _).
  split; [done|]. split; [done|]. split.
  - apply region_norm_sql_trimmed.
  - apply region_norm_sql_idem.
Qed.

(** A table row with a NULL period, region, rubro or quantity, or
    with a period outside 2005..2023, gives no row of the frame; every
    other table row gives exactly one, so the frame is never longer than
    the table. *)
Lemma load_emissions_data_drops (table : list Loader.emissions_hist) :
  (List.length (Loader.load_emissions_data table) ≤ List.length table)%nat
  ∧ Forall (λ eh,
      (Loader.eh_period eh = None ∨ Loader.eh_region eh = None
       ∨ Loader.eh_rubro_vu eh = None ∨ Loader.eh_cantidad_toneladas eh = None
       ∨ (∃ p, Loader.eh_period eh = Some p ∧ ¬ (2005 ≤ p ∧ p ≤ 2023)%Z))
      ↔ Loader.select_row eh = None) table.
Proof.
  split.
  - unfold Loader.load_emissions_data.
    induction table as [|eh table IH]; [done|].
    cbn [omap list_omap]. destruct (Loader.select_row eh); simpl; lia.
  - apply Forall_forall. intros eh _. unfold Loader.select_row.
    destruct (Loader.eh_period eh) as [p|],
      (Loader.eh_cantidad_toneladas eh) as [q|],
      (Loader.eh_region eh) as [region|],
      (Loader.eh_rubro_vu eh) as [rubro|];
      try (split; [done|]; intros _; tauto).
    case_bool_decide as Hp.
    + split; [|done]. intros [?|[?|[?|[?|(p' & [= <-] & Hn)]]]]; done.
    + split; [done|]. intros _. do 4 right. by exists p.
Qed.

(** X6.  On a freshly loaded frame the full year range 2005..2023 with no
    other criterion selects every row. *)
Theorem filtrar_emisiones_full_range (table : list Loader.emissions_hist) :
  filtrar_emisiones (Loader.load_emissions_data table)
    None None None (Some 2005%Z) (Some 2023%Z)
  = Loader.load_emissions_data table.
Proof.
  rewrite filtrar_emisiones_filter. apply filter_Forall_id.
  apply Forall_forall. intros row Hrow.
  apply list_elem_of_omap in Hrow as (eh & _ & Hsel).
  apply select_row_Some in Hsel as (Hlo & Hhi & _).
  unfold passes, year_in_range. simpl. tauto.
Qed.

(** ** LIKE patterns and the branches of the CASE *)

Section patterns.

Lemma LIKE_any s : LIKE s "%" = true.
Proof.
  induction s as [|d s IH]; [done|].
  change (LIKE (String d s) "%") with (LIKE (String d s) "" || LIKE s "%").
  by rewrite IH, orb_true_r.
Qed.

Lemma LIKE_literal p s : literal p = true → LIKE s p = String.eqb s p.
Proof.
  revert s. induction p as [|c p IH]; intros s Hp.
  - by destruct s.
  - cbn [literal] in Hp. apply andb_true_iff in Hp as [Hc Hp].
    apply negb_true_iff in Hc. cbn [LIKE]. rewrite Hc.
    destruct s as [|d s]; [done|]. cbn [String.eqb].
    rewrite (IH s Hp), (Ascii.eqb_sym c d). done.
Qed.

Lemma LIKE_prefix q s : literal q = true → LIKE s (q +:+ "%") = String.prefix q s.
Proof.
  revert s. induction q as [|c q IH]; intros s Hq.
  - change ("" +:+ "%") with "%". rewrite LIKE_any. by destruct s.
  - cbn [literal] in Hq. apply andb_true_iff in Hq as [Hc Hq].
    apply negb_true_iff in Hc.
    change (String c q +:+ "%") with (String c (q +:+ "%")).
    cbn [LIKE]. rewrite Hc. destruct s as [|d s]; [done|].
    cbn [String.prefix]. rewrite (IH s Hq).
    destruct (ascii_dec c d) as [->|Hne].
    + by rewrite Ascii.eqb_refl.
    + apply Ascii.eqb_neq in Hne. by rewrite Hne.
Qed.

Lemma pattern_prefix_Some p q :
  pattern_prefix p = Some q → literal q = true ∧ p = q +:+ "%".
Proof.
  revert q. induction p as [|c p IH]; intros q; [done|]. cbn [pattern_prefix].
  destruct (Ascii.eqb c "%") eqn:Hc.
  - destruct p; [|done]. intros [= <-]. apply Ascii.eqb_eq in Hc as ->. done.
  - destruct (pattern_prefix p) as [q'|]; [|done]. intros [= <-].
    destruct (IH q' eq_refl) as [Hl ->]. split; [|done].
    cbn [literal]. by rewrite Hc, Hl.
Qed.

Lemma never_both_sound p1 p2 s :
  never_both p1 p2 = true → LIKE s p1 = true → LIKE s p2 = true → False.
Proof.
  unfold never_both.
  destruct (pattern_prefix p1) as [q1|] eqn:H1, (pattern_prefix p2) as [q2|] eqn:H2;
    [done|..].
  - apply pattern_prefix_Some in H1 as [Hq1 ->].
    intros [Hl Hn]%andb_true_iff. rewrite LIKE_prefix, LIKE_literal by done.
    intros Hpre ->%String.eqb_eq. by rewrite Hpre in Hn.
  - apply pattern_prefix_Some in H2 as [Hq2 ->].
    intros [Hl Hn]%andb_true_iff. rewrite LIKE_prefix, LIKE_literal by done.
    intros ->%String.eqb_eq Hpre. by rewrite Hpre in Hn.
  - intros [[Hl1 Hl2]%andb_true_iff Hn]%andb_true_iff.
    rewrite !LIKE_literal by done.
    intros ->%String.eqb_eq ->%String.eqb_eq. by rewrite String.eqb_refl in Hn.
Qed.

(** Two branches of the CASE that can match one text have one result. *)
Lemma region_case_unambiguous :
  Forall (λ b1, Forall (λ b2,
      b1.2 = b2.2 ∨ never_both (str_lower b1.1) (str_lower b2.1) = true)
    region_case) region_case.
Proof. apply (bool_decide_unpack _). vm_compute. exact I. Qed.

Lemma case_when_first branches t dflt b :
  b ∈ branches → ILIKE t b.1 = true →
  ∃ b1, b1 ∈ branches ∧ ILIKE t b1.1 = true ∧ case_when branches t dflt = b1.2.
Proof.
  induction branches as [|[pat res] rest IH]; intros Hb Hm; [by inversion Hb|].
  cbn [case_when]. destruct (ILIKE t pat) eqn:Hpat.
  - exists (pat, res). split; [apply list_elem_of_here | done].
  - apply elem_of_cons in Hb as [-> | Hb]; [simpl in Hm; congruence|].
    destruct (IH Hb Hm) as (b1 & Hin & Hm1 & Heq).
    exists b1. split; [by apply list_elem_of_further | done].
Qed.

End patterns.

(** X7.  The order of the branches of the CASE is immaterial: whenever
    the trimmed region matches the pattern of a branch, the result of
    that branch is the normalised name, also when the branch is not the
    first one that matches. *)
Theorem region_norm_sql_any_matching_branch region pat res :
  (pat, res) ∈ region_case →
  ILIKE (TRIM region) pat = true →
  region_norm_sql region = res.
Proof.
  intros Hin Hm. unfold region_norm_sql.
  destruct (case_when_first region_case (TRIM region) (TRIM region) (pat, res) Hin Hm)
    as (b1 & Hin1 & Hm1 & ->).
  pose proof region_case_unambiguous as Hu.
  rewrite Forall_forall in Hu. specialize (Hu b1 Hin1).
  rewrite Forall_forall in Hu. destruct (Hu (pat, res) Hin) as [Heq | Hnever]; [done|].
  destruct (never_both_sound _ _ _ Hnever Hm1 Hm).
Qed.

Lemma region_norm_sql_any_matching_branch_witness :
  region_norm_sql "  magallanes " = "Magallanes y de la Antártica Chilena".
Proof.
  apply (region_norm_sql_any_matching_branch
           "  magallanes " "Magallanes" "Magallanes y de la Antártica Chilena").
  - apply (bool_decide_unpack _). vm_compute. exact I.
  - vm_compute. reflexivity.
Defined.

(** X8.  A region is normalised to "Metropolitana de Santiago" exactly
    when its trimmed text starts with "metropolitana" in any letter
    case. *)
Theorem region_norm_sql_metropolitana region :
  region_norm_sql region = "Metropolitana de Santiago"
  ↔ String.prefix "metropolitana" (str_lower (TRIM region)) = true.
Proof.
  assert (ILIKE (TRIM region) "Metropolitana%"
          = String.prefix "metropolitana" (str_lower (TRIM region))) as Hlike.
  { unfold ILIKE.
    change (str_lower "Metropolitana%") with ("metropolitana" +:+ "%").
    by apply LIKE_prefix. }
  rewrite <- Hlike. split.
  - intros Hres. destruct (ILIKE (TRIM region) "Metropolitana%") eqn:Hm; [done|].
    unfold region_norm_sql in Hres.
    change (case_when region_case (TRIM region) (TRIM region))
      with (if ILIKE (TRIM region) "Metropolitana%" then "Metropolitana de Santiago"
            else case_when (tail region_case) (TRIM region) (TRIM region)) in Hres.
    rewrite Hm in Hres.
    destruct (case_when_cases (tail region_case) (TRIM region) (TRIM region))
      as [Hd | Hin].
    + rewrite Hd in Hres. rewrite Hres in Hm. vm_compute in Hm. done.
    + rewrite Hres in Hin. exfalso. revert Hin.
      apply (bool_decide_unpack _). vm_compute. exact I.
  - intros Hm. unfold region_norm_sql.
    change (case_when region_case (TRIM region) (TRIM region))
      with (if ILIKE (TRIM region) "Metropolitana%" then "Metropolitana de Santiago"
            else case_when (tail region_case) (TRIM region) (TRIM region)).
    by rewrite Hm.
Qed.

(** X9.  The two tables agree: every name the CASE produces from its
    table is a value of [mapa_norm], and upper-casing, the key of the map
    join, keeps the values of [mapa_norm] apart. *)
Theorem normalizer_tables_agree :
  Forall (λ c, c ∈ mapa_norm_items.*2) region_case.*2
  ∧ NoDup (str_upper <$> mapa_norm_items.*2).
Proof.
  split; apply (bool_decide_unpack _); vm_compute; exact I.
Qed.

(** ** More on groupby, sort_values and head *)

Section groupby_more.
Context {K : Type} `{Countable K}.
Implicit Types (key : emission → option K).

Lemma elem_of_groupby_sum_keys (R : relation K) `{!RelDecision R} key df k :
  k ∈ (groupby_sum R key df).*1 ↔ ∃ row, row ∈ df ∧ key row = Some k.
Proof.
  rewrite groupby_sum_Permutation. unfold group_sums. split.
  - intros ([k' q] & -> & Hin)%list_elem_of_fmap.
    apply elem_of_map_to_list in Hin.
    assert (is_Some (foldl (group_add key) ∅ df !! k')) as Hs by by eexists.
    apply group_sums_is_Some in Hs as [Hs|Hs]; [|done].
    rewrite lookup_empty in Hs. by destruct Hs.
  - intros Hrow.
    assert (is_Some (foldl (group_add key) ∅ df !! k)) as [q Hq]
      by (apply group_sums_is_Some; by right).
    apply list_elem_of_fmap. exists (k, q). split; [done|].
    by apply elem_of_map_to_list.
Qed.

Lemma group_sums_no_key key df acc :
  Forall (λ row, key row = None) df → foldl (group_add key) acc df = acc.
Proof.
  intros Hdf. revert acc. induction Hdf as [|row df Hrow _ IH]; intros acc; [done|].
  simpl. unfold group_add at 2. rewrite Hrow. apply IH.
Qed.

Lemma groupby_sum_no_key (R : relation K) `{!RelDecision R} key df :
  Forall (λ row, key row = None) df → groupby_sum R key df = [].
Proof.
  intros Hdf. apply Permutation_nil_r. rewrite groupby_sum_Permutation.
  unfold group_sums. by rewrite group_sums_no_key, map_to_list_empty.
Qed.


End groupby_more.


(** X11.  The list is the top of the ranking: a facility of the group is
    either listed, or the list is full (10 entries) and every listed
    facility has at least its quantity. *)
Theorem top10_complete df_r e' :
  e' ∈ groupby_sum facility_le by_facility df_r →
  e' ∈ top10 df_r
  ∨ (List.length (top10 df_r) = 10%nat
     ∧ Forall (λ e, (e'.2 <= e.2)%Q) (top10 df_r)).
Proof.
  intros He'. unfold top10, Series_head.
  set (s := sort_values false (groupby_sum facility_le by_facility df_r)).
  assert (e' ∈ s) as Hs by (unfold s; by rewrite sort_values_Permutation).
  pose proof (sort_values_desc_sorted (groupby_sum facility_le by_facility df_r))
    as Hsorted. fold s in Hsorted.
  rewrite <- (take_drop 10 s) in Hs, Hsorted.
  apply elem_of_app in Hs as [Hs | Hs]; [by left | right].
  split.
  - rewrite length_take. assert (drop 10 s ≠ []) as Hd by (by intros Heq; rewrite Heq in Hs; inversion Hs).
    destruct (decide (10 ≤ List.length s)%nat) as [Hle | Hgt]; [lia|].
    rewrite drop_ge in Hd by lia. done.
  - apply Forall_forall. intros e He.
    by apply (StronglySorted_app_1_elem_of _ _ _ e e' Hsorted).
Qed.

Lemma top10_complete_witness :
  ("1", "Planta", 1%Q) ∈ top10 Sample.eleven
  ∨ (List.length (top10 Sample.eleven) = 10%nat
     ∧ Forall (λ e, (1 <= e.2)%Q) (top10 Sample.eleven)).
Proof.
  apply (top10_complete Sample.eleven ("1", "Planta", 1%Q)).
  vm_compute. apply list_elem_of_here.
Defined.

Example top10_eleven :
  (top10 Sample.eleven).*1.*1 = ["11"; "10"; "9"; "8"; "7"; "6"; "5"; "4"; "3"; "2"].
Proof. vm_compute. reflexivity. Qed.

(** X12.  Each listed facility is listed once and has a row in the group;
    a group with at most 10 facilities has all of them listed. *)
Theorem top10_facilities df_r :
  NoDup (top10 df_r).*1
  ∧ Forall (λ e, ∃ row, row ∈ df_r ∧ id_vu row = Some e.1.1
                        ∧ nombre_establecimiento row = Some e.1.2) (top10 df_r)
  ∧ ((List.length (groupby_sum facility_le by_facility df_r) ≤ 10)%nat →
     top10 df_r ≡ₚ groupby_sum facility_le by_facility df_r).
Proof.
  split; [|split].
  - unfold top10, Series_head.
    eapply sublist_NoDup; [|apply fmap_sublist, sublist_take].
    rewrite sort_values_Permutation. apply groupby_sum_keys_NoDup.
  - apply Forall_forall. intros [[i n] q] He. simpl.
    apply elem_of_top10, elem_of_groupby_sum in He as [(row & Hin & Hk) _].
    exists row. split; [done|]. by apply by_facility_Some.
  - intros Hlen. unfold top10, Series_head. rewrite take_ge.
    + apply sort_values_Permutation.
    + by rewrite sort_values_Permutation.
Qed.

(** X13.  Rows without id_vu or without nombre_establecimiento enter no
    "Top 10": when all rows of a heatmap cell lack one of them, the list
    is empty and the cell's detail is the empty text, not "Sin datos". *)
Theorem top10_str_without_facility df region year :
  let df_r_a := filter (λ row, region_norm row = region ∧ period row = year) df in
  df_r_a ≠ [] →
  Forall (λ row, id_vu row = None ∨ nombre_establecimiento row = None) df_r_a →
  top10 df_r_a = [] ∧ top10_str df region year = "".
Proof.
  intros df_r_a Hne Hnull.
  assert (top10 df_r_a = []) as Htop.
  { unfold top10. rewrite groupby_sum_no_key; [done|].
    eapply Forall_impl; [exact Hnull|]. intros row. unfold by_facility.
    by intros [-> | ->]; [|destruct (id_vu row)]. }
  split; [done|]. unfold top10_str. fold df_r_a.
  destruct df_r_a as [|row rest] eqn:Hdf; [done|].
  unfold top10_html. by rewrite Htop.
Qed.

Lemma top10_str_without_facility_witness :
  top10 (filter (λ row, region_norm row = "Maule" ∧ period row = 2021%Z) Sample.frame)
    = []
  ∧ top10_str Sample.frame "Maule" 2021 = "".
Proof.
  apply (top10_str_without_facility Sample.frame "Maule" 2021%Z).
  - vm_compute. discriminate.
  - apply (bool_decide_unpack _). vm_compute. exact I.
Defined.

(** ** More on the heatmap *)

Section heatmap_more.
Implicit Types (df : DataFrame) (region : string) (year : Z).

#[global] Instance str_le_total : Total str_le.
Proof.
  intros s t. unfold str_le.
  destruct (String.leb_total s t) as [Hst | Hts]; [left | right];
    by apply Is_true_true.
Qed.

Lemma sum_filter_disjoint (P Q : emission → Prop)
    `{!∀ row, Decision (P row)} `{!∀ row, Decision (Q row)} df :
  (∀ row, P row → Q row → False) →
  (sum_emisiones (filter P df) + sum_emisiones (filter Q df)
   == sum_emisiones (filter (λ row, P row ∨ Q row) df))%Q.
Proof.
  intros Hdis. induction df as [|row df IH].
  - rewrite !filter_nil, sum_emisiones_nil. ring.
  - destruct (decide (P row)) as [HP | HnP], (decide (Q row)) as [HQ | HnQ].
    + destruct (Hdis row HP HQ).
    + rewrite (filter_cons_True P), (filter_cons_False Q),
        (filter_cons_True (λ row, P row ∨ Q row)) by tauto.
      rewrite !sum_emisiones_cons, <- IH. ring.
    + rewrite (filter_cons_False P), (filter_cons_True Q),
        (filter_cons_True (λ row, P row ∨ Q row)) by tauto.
      rewrite !sum_emisiones_cons, <- IH. ring.
    + rewrite (filter_cons_False P), (filter_cons_False Q),
        (filter_cons_False (λ row, P row ∨ Q row)) by tauto.
      exact IH.
Qed.

Lemma filter_none {A} (P : A → Prop) `{!∀ x, Decision (P x)} (l : list A) :
  (∀ x, ¬ P x) → filter P l = [].
Proof.
  intros HP. induction l as [|x l IH]; [done|].
  rewrite filter_cons_False by apply HP. exact IH.
Qed.

(** The sums of the classes of a partition add up to the sum of the
    whole. *)
Lemma sum_by_classes {B} `{EqDecision B} (f : emission → B) (ks : list B) df :
  NoDup ks →
  (Qsum ((λ k, sum_emisiones (filter (λ row, f row = k) df)) <$> ks)
   == sum_emisiones (filter (λ row, f row ∈ ks) df))%Q.
Proof.
  induction 1 as [|k ks Hk _ IH].
  - cbn [fmap list_fmap Qsum foldr]. rewrite filter_none.
    + by rewrite sum_emisiones_nil.
    + intros row Hin. inversion Hin.
  - cbn [fmap list_fmap Qsum foldr]. fold (Qsum ((λ k, sum_emisiones (filter (λ row, f row = k) df)) <$> ks)).
    rewrite IH, sum_filter_disjoint.
    + erewrite list_filter_iff; [reflexivity|].
      intros row. rewrite elem_of_cons. tauto.
    + intros row -> Hin. done.
Qed.

Lemma Qsum_fmap_ext {B} (g h : B → Q) (ks : list B) :
  (∀ k, g k == h k)%Q → (Qsum (g <$> ks) == Qsum (h <$> ks))%Q.
Proof.
  intros Hgh. induction ks as [|k ks IH]; [reflexivity|].
  cbn [fmap list_fmap Qsum foldr].
  fold (Qsum (g <$> ks)). fold (Qsum (h <$> ks)). by rewrite IH, Hgh.
Qed.

Lemma pivot_index_NoDup df : NoDup (index (pivot df)).
Proof.
  unfold pivot, unstack; simpl. rewrite merge_sort_Permutation.
  apply NoDup_remove_dups.
Qed.

Lemma pivot_columns_NoDup df : NoDup (columns (pivot df)).
Proof.
  unfold pivot, unstack; simpl. rewrite merge_sort_Permutation.
  apply NoDup_remove_dups.
Qed.

Lemma pivot_values df :
  values (pivot df)
  = (λ region,
       (λ year, default 0%Q (group_sums by_region_period df !! (region, year)))
         <$> columns (pivot df))
      <$> index (pivot df).
Proof. unfold pivot, unstack; simpl. by rewrite pivot_entries. Qed.

Lemma pivot_row_sum df region :
  (Qsum ((λ year, default 0%Q (group_sums by_region_period df !! (region, year)))
           <$> columns (pivot df))
   == sum_emisiones (filter (λ row, region_norm row = region) df))%Q.
Proof.
  rewrite (Qsum_fmap_ext _
    (λ year, sum_emisiones
       (filter (λ row, period row = year)
          (filter (λ row, region_norm row = region) df)))).
  - rewrite (sum_by_classes period) by apply pivot_columns_NoDup.
    rewrite filter_Forall_id; [reflexivity|].
    apply Forall_forall. intros row [_ Hin]%list_elem_of_filter.
    apply elem_of_pivot_columns. apply list_elem_of_fmap. by exists row.
  - intros year. rewrite cell_value_sum, list_filter_filter.
    erewrite list_filter_iff; [reflexivity|]. intros row. tauto.
Qed.

End heatmap_more.

(** X14.  The heatmap is a full grid: the matrix of values, the matrix of
    cell texts and the matrix of hover texts each have one row per region
    of the index and one entry per year of the columns, and every hover
    text is built (no index is out of range). *)
Theorem heatmap_shape df :
  let p := pivot df in
  let rows := List.length (index p) in
  let cols := List.length (columns p) in
  List.length (values p) = rows
  ∧ Forall (λ fila, List.length fila = cols) (values p)
  ∧ List.length (text_vals (values p)) = rows
  ∧ Forall (λ fila, List.length fila = cols) (text_vals (values p))
  ∧ List.length (hovertext df p) = rows
  ∧ Forall (λ fila, List.length fila = cols ∧ Forall is_Some fila) (hovertext df p).
Proof.
  intros p rows cols. unfold p, rows, cols.
  split; [|split; [|split; [|split; [|split]]]].
  - by rewrite pivot_values, length_fmap.
  - rewrite pivot_values. apply Forall_fmap, Forall_forall. intros region _.
    simpl. by rewrite length_fmap.
  - unfold text_vals. by rewrite pivot_values, !length_fmap.
  - unfold text_vals. rewrite pivot_values.
    apply Forall_fmap, Forall_fmap, Forall_forall. intros region _.
    simpl. by rewrite !length_fmap.
  - unfold hovertext. by rewrite length_imap.
  - apply Forall_lookup. intros i fila Hfila. unfold hovertext in Hfila.
    apply list_lookup_imap_Some in Hfila as (region & Hi & ->).
    split; [by rewrite length_imap|].
    apply Forall_lookup. intros j cell Hcell.
    apply list_lookup_imap_Some in Hcell as (year & Hj & ->).
    rewrite (pivot_at df i j region year Hi Hj). by eexists.
Qed.

(** X15.  The rows of the heatmap are the regions that occur in the
    filtered frame, each once, in ascending text order; its columns are
    the years that occur, each once, in ascending order. *)
Theorem heatmap_axes df :
  (NoDup (index (pivot df))
   ∧ Sorted str_le (index (pivot df))
   ∧ ∀ region, region ∈ index (pivot df) ↔ region ∈ region_norm <$> df)
  ∧ (NoDup (columns (pivot df))
     ∧ StronglySorted Z.le (columns (pivot df))
     ∧ ∀ year, year ∈ columns (pivot df) ↔ year ∈ period <$> df).
Proof.
  split; (split; [|split]).
  - apply pivot_index_NoDup.
  - unfold pivot, unstack; simpl. apply (Sorted_merge_sort _).
  - apply elem_of_pivot_index.
  - apply pivot_columns_NoDup.
  - unfold pivot, unstack; simpl. apply (StronglySorted_merge_sort _).
  - apply elem_of_pivot_columns.
Qed.

(** With exact additions the heatmap is consistent with the bar chart:
    the values of a row add up to the total of its region, and all values
    together add up to the total of the filtered frame.  In binary64 these
    hold up to the rounding of the additions only. *)
Lemma heatmap_sums_exact df :
  Forall2 (λ region fila,
      (Qsum fila == sum_emisiones (filter (λ row, region_norm row = region) df))%Q)
    (index (pivot df)) (values (pivot df))
  ∧ (Qsum (Qsum <$> values (pivot df)) == sum_emisiones df)%Q.
Proof.
  split.
  - rewrite pivot_values. apply Forall2_fmap_r, Forall_Forall2_diag, Forall_forall.
    intros region _. apply pivot_row_sum.
  - rewrite pivot_values, <- list_fmap_compose.
    rewrite (Qsum_fmap_ext _
      (λ region, sum_emisiones (filter (λ row, region_norm row = region) df))).
    + rewrite (sum_by_classes region_norm) by apply pivot_index_NoDup.
      rewrite filter_Forall_id; [reflexivity|].
      apply Forall_forall. intros row Hin.
      apply elem_of_pivot_index. apply list_elem_of_fmap. by exists row.
    + intros region. apply pivot_row_sum.
Qed.

(** ** More on the number formats *)

Section format_more.

Lemma Qfloor_between x n :
  (inject_Z n <= x)%Q → (x < inject_Z (n + 1))%Q → Qfloor x = n.
Proof.
  intros Hle Hlt.
  pose proof (Qfloor_le x) as Hf1. pose proof (Qlt_floor x) as Hf2.
  assert (inject_Z (Qfloor x) < inject_Z (n + 1))%Q as H1
    by (eapply Qle_lt_trans; [exact Hf1 | exact Hlt]).
  assert (inject_Z n < inject_Z (Qfloor x + 1))%Q as H2
    by (eapply Qle_lt_trans; [exact Hle | exact Hf2]).
  rewrite <- Zlt_Qlt in H1, H2. lia.
Qed.

Lemma round_half_even_up x n :
  (inject_Z n + (1 # 2) < x)%Q → (x < inject_Z (n + 1))%Q →
  round_half_even x = (n + 1)%Z.
Proof.
  intros Hlo Hhi.
  assert (Qfloor x = n) as Hf by (apply Qfloor_between; [lra | done]).
  unfold round_half_even. rewrite Hf.
  assert ((x - inject_Z n ?= 1 # 2)%Q = Gt) as ->; [|done].
  apply Qgt_alt. lra.
Qed.

End format_more.

(** X17.  Every quantity from 0 up to, but not including, 5000 tonnes
    appears in a "Top 10" entry as "0.00 M". *)
Theorem facility_quantity_small val :
  (0 <= val)%Q → (val < 5000)%Q →
  facility_quantity val = "0.00 M"
  ∧ ∀ id_vu nombre,
      facility_label id_vu nombre val = id_vu +:+ " – " +:+ nombre +:+ " (0.00 M)".
Proof.
  intros H0 Hlt.
  pose proof (facility_quantity_below_5000 val H0 Hlt) as Hq.
  split; [done|]. intros id_vu nombre.
  by rewrite facility_label_quantity, Hq.
Qed.

Lemma facility_quantity_small_witness :
  facility_quantity 4999 = "0.00 M"
  ∧ ∀ id_vu nombre,
      facility_label id_vu nombre 4999 = id_vu +:+ " – " +:+ nombre +:+ " (0.00 M)".
Proof. apply (facility_quantity_small 4999); vm_compute; done. Defined.

(** X18.  Just below one million the two texts of a heatmap cell part
    ways: for a value above 999500 and below 1000000 the cell shows
    "999k" while the hover text says "1000k Ton". *)
Theorem heatmap_texts_below_million v :
  (999500 < v)%Q → (v < 1000000)%Q →
  cell_text v = "999k" ∧ emis_str v = "1000k Ton".
Proof.
  intros Hlo Hhi. unfold cell_text, emis_str.
  assert (ge v 1000000 = false) as -> by by apply ge_false.
  assert (ge v 1000 = true) as -> by (apply ge_true; lra).
  assert (0 <= v / 1000)%Q as Hnn by (apply Qdiv_nonneg; [lra | done]).
  assert (inject_Z 999 + (1 # 2) < v / 1000)%Q as H1.
  { apply Qlt_shift_div_l; [done|]. eapply Qle_lt_trans; [|exact Hlo].
    vm_compute. discriminate. }
  assert (v / 1000 < inject_Z (999 + 1))%Q as H2.
  { apply Qlt_shift_div_r; [done|]. eapply Qlt_le_trans; [exact Hhi|].
    vm_compute. discriminate. }
  rewrite int_of_float_nonneg, format_f_0_nonneg by done.
  rewrite (round_half_even_up _ 999 H1 H2).
  rewrite (Qfloor_between _ 999); [done| |done].
  apply Qlt_le_weak. eapply Qle_lt_trans; [|exact H1].
  vm_compute. discriminate.
Qed.

Lemma heatmap_texts_below_million_witness :
  cell_text 999900 = "999k" ∧ emis_str 999900 = "1000k Ton".
Proof. apply (heatmap_texts_below_million 999900); vm_compute; done. Defined.

(** ** More on the choropleth *)

Section choropleth_more.
Context {G : Type} (rotate : G → G).
Implicit Types (f : feature G) (m : merged G) (t : region_total) (df : DataFrame).

Lemma filter_not_elem {A B} `{EqDecision B} (g : A → B) (k : B) (l : list A) :
  k ∉ g <$> l → filter (λ x, g x = k) l = [].
Proof.
  induction l as [|x l IH]; [done|]. rewrite fmap_cons, not_elem_of_cons.
  intros [Hx Hl]. rewrite filter_cons_False by done. by apply IH.
Qed.

Lemma filter_key_NoDup {A B} `{EqDecision B} (g : A → B) (k : B) (l : list A) :
  NoDup (g <$> l) → (List.length (filter (λ x, g x = k) l) ≤ 1)%nat.
Proof.
  induction l as [|x l IH]; [intros _; rewrite filter_nil; simpl; lia|].
  rewrite fmap_cons, NoDup_cons.
  intros [Hx Hl]. destruct (decide (g x = k)) as [<- | Hne].
  - rewrite filter_cons_True by done. rewrite filter_not_elem by done. simpl. lia.
  - rewrite filter_cons_False by done. by apply IH.
Qed.

Lemma matches_at_most_one (right : list region_total) f :
  NoDup (t_REGION_UP <$> right) → (List.length (matches right f) ≤ 1)%nat.
Proof.
  intros Hnd. unfold matches. destruct (g_REGION_UP f) as [k|].
  - erewrite list_filter_iff; [by apply (filter_key_NoDup t_REGION_UP k)|].
    intros t. simpl. split; [by intros [= ->] | by intros ->].
  - rewrite filter_none; [simpl; lia | done].
Qed.

Lemma merge_left_features (left : list (feature G)) (right : list region_total) :
  NoDup (t_REGION_UP <$> right) →
  m_feature <$> merge_left left right = left.
Proof.
  intros Hnd. unfold merge_left. induction left as [|f left IH]; [done|].
  rewrite bind_cons, fmap_app, IH. f_equal.
  pose proof (matches_at_most_one right f Hnd) as Hlen.
  destruct (matches right f) as [|t [|t' ts]]; simpl in *; [done | done | lia].
Qed.

Lemma emis_region_total_keys df :
  (∀ row1 row2, row1 ∈ df → row2 ∈ df →
     str_upper (region_norm row1) = str_upper (region_norm row2) →
     region_norm row1 = region_norm row2) →
  NoDup (t_REGION_UP <$> emis_region_total df).
Proof.
  intros Hinj.
  assert (t_REGION_UP <$> emis_region_total df
          = str_upper <$> (groupby_sum str_le by_region df).*1) as ->.
  { unfold emis_region_total. by rewrite <- !list_fmap_compose. }
  apply NoDup_fmap_2_strong; [|apply groupby_sum_keys_NoDup].
  intros k1 k2 H1 H2 Hup.
  apply elem_of_groupby_sum_keys in H1 as (row1 & Hin1 & [= <-]).
  apply elem_of_groupby_sum_keys in H2 as (row2 & Hin2 & [= <-]).
  by apply Hinj.
Qed.

End choropleth_more.

Section choropleth_values.
Context {G : Type} (rotate : G → G).
Implicit Types (f : feature G) (m : merged G) (t : region_total) (df : DataFrame).

Lemma fillna_emisiones_features v (rows : list (merged G)) :
  m_feature <$> fillna_emisiones v rows = m_feature <$> rows.
Proof. unfold fillna_emisiones. by rewrite <- list_fmap_compose. Qed.

Lemma gdf_regiones_length (file : list (string * G)) :
  List.length (gdf_regiones rotate file) = List.length file.
Proof. unfold gdf_regiones, load_regions_geojson. by rewrite !length_fmap. Qed.



End choropleth_values.

(** X19.  When no two regions of the filtered frame differ only by letter
    case, the merged frame has exactly the features of the boundary
    frame, each once and in their order. *)
Theorem geo_merged_one_row_per_feature
    {G : Type} (rotate : G → G) (file : list (string * G)) df :
  (∀ row1 row2, row1 ∈ df → row2 ∈ df →
     str_upper (region_norm row1) = str_upper (region_norm row2) →
     region_norm row1 = region_norm row2) →
  m_feature <$> geo_merged rotate file df = gdf_regiones rotate file
  ∧ List.length (geo_merged rotate file df) = List.length file.
Proof.
  intros Hinj.
  assert (m_feature <$> geo_merged rotate file df = gdf_regiones rotate file) as Hf.
  { unfold geo_merged. rewrite fillna_emisiones_features.
    by apply merge_left_features, emis_region_total_keys. }
  split; [done|].
  rewrite <- (gdf_regiones_length rotate file), <- Hf. by rewrite length_fmap.
Qed.

Lemma geo_merged_one_row_per_feature_witness :
  m_feature <$> geo_merged S Sample.regional Sample.frame
    = gdf_regiones S Sample.regional
  ∧ List.length (geo_merged S Sample.regional Sample.frame)
    = List.length Sample.regional.
Proof.
  apply (geo_merged_one_row_per_feature S Sample.regional Sample.frame).
  assert (Forall (λ row1, Forall (λ row2,
            str_upper (region_norm row1) = str_upper (region_norm row2) →
            region_norm row1 = region_norm row2) Sample.frame) Sample.frame) as Hall.
  { apply (bool_decide_unpack _). vm_compute. exact I. }
  intros row1 row2 H1 H2.
  rewrite Forall_forall in Hall. specialize (Hall row1 H1).
  rewrite Forall_forall in Hall. by apply Hall.
Defined.


(** X21.  A feature whose name is not a key of [mapa_norm] is kept, has
    no join key, and is given 0 whatever the emissions are. *)
Theorem geo_merged_unmapped_feature
    {G : Type} (rotate : G → G) (file : list (string * G)) df name geom :
  (name, geom) ∈ file →
  name ∉ mapa_norm_items.*1 →
  let f := {| Region := name; geometry := rotate geom;
              g_region_norm := None; g_REGION_UP := None |} in
  f ∈ gdf_regiones rotate file
  ∧ (∃ m, m ∈ geo_merged rotate file df ∧ m_feature m = f)
  ∧ Forall (λ m, m_feature m = f → m_emisiones m = Some 0%Q)
      (geo_merged rotate file df).
Proof.
  intros Hfile Hkey f.
  assert (region_norm_geo name = None) as Hnone
    by (by apply not_elem_of_list_to_map_1).
  assert (f ∈ gdf_regiones rotate file) as Hf.
  { unfold gdf_regiones, load_regions_geojson. rewrite <- list_fmap_compose.
    apply list_elem_of_fmap. exists (name, geom). split; [|done].
    unfold f. simpl. by rewrite Hnone. }
  split; [done|]. split.
  - destruct (merge_left_keeps_left _ (emis_region_total df) f Hf) as (m & Hm & Hmf).
    eexists. split.
    + unfold geo_merged, fillna_emisiones. apply list_elem_of_fmap. by exists m.
    + exact Hmf.
  - apply Forall_forall. intros m Hm Hmf. unfold geo_merged in Hm.
    apply elem_of_fillna_emisiones in Hm as (m' & Hm' & Hfeat & ->).
    apply merge_left_elem in Hm' as [_ [[_ ->] | (t & Ht & _)]]; [done|].
    rewrite <- Hfeat, Hmf in Ht. unfold matches, f in Ht. simpl in Ht.
    apply list_elem_of_filter in Ht as [[=] _].
Qed.

Lemma geo_merged_unmapped_feature_witness :
  let f := {| Region := "Isla de Pascua"; geometry := S 3;
              g_region_norm := None; g_REGION_UP := None |} in
  f ∈ gdf_regiones S Sample.regional
  ∧ (∃ m, m ∈ geo_merged S Sample.regional Sample.frame ∧ m_feature m = f)
  ∧ Forall (λ m, m_feature m = f → m_emisiones m = Some 0%Q)
      (geo_merged S Sample.regional Sample.frame).
Proof.
  apply (geo_merged_unmapped_feature S Sample.regional Sample.frame
           "Isla de Pascua" 3).
  - do 2 apply list_elem_of_further. apply list_elem_of_here.
  - apply (bool_decide_unpack _). vm_compute. exact I.
Defined.

(** ** The sidebar *)

Section sidebar.
Import Sidebar.
Implicit Types (df : DataFrame).

Lemma elem_of_options col df o :
  o ∈ options col df ↔ o = "Todos" ∨ ∃ row, row ∈ df ∧ col row = Some o.
Proof.
  unfold options.
  rewrite elem_of_cons, merge_sort_Permutation, elem_of_remove_dups,
    list_elem_of_omap.
  done.
Qed.

Lemma foldr_min_spec p ps :
  foldr Z.min p ps ∈ p :: ps ∧ Forall (λ x, (foldr Z.min p ps ≤ x)%Z) (p :: ps).
Proof.
  induction ps as [|x ps [IHin IHle]]; simpl.
  - split; [apply list_elem_of_here|]. repeat constructor. lia.
  - apply Forall_cons in IHle as [Hp Hps]. split.
    + destruct (Z.min_spec x (foldr Z.min p ps)) as [[_ ->] | [_ ->]].
      * apply list_elem_of_further, list_elem_of_here.
      * apply elem_of_cons in IHin as [-> | IHin].
        -- apply list_elem_of_here.
        -- by do 2 apply list_elem_of_further.
    + repeat apply Forall_cons_2; [lia | lia |].
      eapply Forall_impl; [exact Hps|]. intros y Hy. simpl in Hy. lia.
Qed.

Lemma foldr_max_spec p ps :
  foldr Z.max p ps ∈ p :: ps ∧ Forall (λ x, (x ≤ foldr Z.max p ps)%Z) (p :: ps).
Proof.
  induction ps as [|x ps [IHin IHle]]; simpl.
  - split; [apply list_elem_of_here|]. repeat constructor. lia.
  - apply Forall_cons in IHle as [Hp Hps]. split.
    + destruct (Z.max_spec x (foldr Z.max p ps)) as [[_ ->] | [_ ->]].
      * apply elem_of_cons in IHin as [-> | IHin].
        -- apply list_elem_of_here.
        -- by do 2 apply list_elem_of_further.
      * apply list_elem_of_further, list_elem_of_here.
    + repeat apply Forall_cons_2; [lia | lia |].
      eapply Forall_impl; [exact Hps|]. intros y Hy. simpl in Hy. lia.
Qed.

Lemma slider_bounds_Some df lo hi :
  slider_bounds df = Some (lo, hi) →
  lo ∈ period <$> df ∧ hi ∈ period <$> df
  ∧ Forall (λ y, (lo ≤ y)%Z ∧ (y ≤ hi)%Z) (period <$> df).
Proof.
  unfold slider_bounds, period_min, period_max.
  destruct (period <$> df) as [|p ps]; [done|]. simpl. intros [= <- <-].
  destruct (foldr_min_spec p ps) as [Hmin Hle].
  destruct (foldr_max_spec p ps) as [Hmax Hge].
  split; [done|]. split; [done|].
  apply Forall_forall. intros y Hy.
  rewrite Forall_forall in Hle, Hge. split; [by apply Hle | by apply Hge].
Qed.

End sidebar.

(** X22.  Every option that a select box offers, other than "Todos" and
    the empty text, selects at least one row when it is used as the only
    criterion. *)
Theorem select_box_option_selects_rows df :
  Forall (λ o, o = "Todos" ∨ o = ""
               ∨ filtrar_emisiones df (Some o) None None None None ≠ [])
    (Sidebar.rubros df)
  ∧ Forall (λ o, o = "Todos" ∨ o = ""
                 ∨ filtrar_emisiones df None (Some o) None None None ≠ [])
      (Sidebar.contaminantes_opciones df)
  ∧ Forall (λ o, o = "Todos" ∨ o = ""
                 ∨ filtrar_emisiones df None None (Some o) None None ≠ [])
      (Sidebar.regiones df).
Proof.
  assert (∀ o, o ≠ "Todos" → o ≠ "" → applies (Some o) = true) as Happ.
  { intros o Htodos Hempty. unfold applies. apply andb_true_iff.
    split; apply negb_true_iff, String.eqb_neq; done. }
  assert (∀ r c g row, row ∈ filtrar_emisiones df r c g None None →
            filtrar_emisiones df r c g None None ≠ []) as Hne.
  { intros r c g row Hrow Hnil. rewrite Hnil in Hrow. inversion Hrow. }
  split; [|split]; apply Forall_forall; intros o Ho;
    (destruct (decide (o = "Todos")) as [|Htodos]; [by left|]);
    (destruct (decide (o = "")) as [|Hempty]; [by right; left|]);
    right; right;
    apply elem_of_options in Ho as [-> | (row & Hin & Hcol)]; try done;
    apply (Hne _ _ _ row); apply elem_of_filtrar_emisiones;
    (split; [done|]); simpl; rewrite ?(Happ o Htodos Hempty);
    simplify_eq; repeat split; try done.
Qed.

Example rubros_sample :
  Sidebar.rubros Sample.frame = ["Todos"; "Minería"; "Pesca"]
  ∧ Sidebar.contaminantes_opciones Sample.frame = ["Todos"; "CO2"; "MP10"]
  ∧ Sidebar.slider_bounds Sample.frame = Some (2018, 2021)%Z.
Proof. repeat split; vm_compute; reflexivity. Qed.

(** X23.  The year slider has no bounds exactly when the frame is empty
    (the script stops there); otherwise its bounds are the least and the
    greatest period of the frame, and selecting the whole slider range
    with no other criterion returns the frame unchanged. *)
Theorem slider_bounds_spec df :
  match Sidebar.slider_bounds df with
  | None => df = []
  | Some (lo, hi) =>
      df ≠ []
      ∧ lo ∈ period <$> df ∧ hi ∈ period <$> df ∧ (lo ≤ hi)%Z
      ∧ Forall (λ row, (lo ≤ period row)%Z ∧ (period row ≤ hi)%Z) df
      ∧ filtrar_emisiones df None None None (Some lo) (Some hi) = df
  end.
Proof.
  destruct (Sidebar.slider_bounds df) as [[lo hi]|] eqn:Hb.
  - assert (df ≠ []) as Hne by (by intros ->).
    apply slider_bounds_Some in Hb as (Hlo & Hhi & Hall).
    assert (Forall (λ row, (lo ≤ period row)%Z ∧ (period row ≤ hi)%Z) df) as Hrows
      by (by apply Forall_fmap in Hall).
    split; [done|]. split; [done|]. split; [done|]. split.
    + rewrite Forall_forall in Hall. destruct (Hall lo Hlo) as [_ ?]. done.
    + split; [done|]. rewrite filtrar_emisiones_filter. apply filter_Forall_id.
      eapply Forall_impl; [exact Hrows|]. intros row [Hl Hh].
      unfold passes, year_in_range. simpl. tauto.
  - unfold Sidebar.slider_bounds, Sidebar.period_min, Sidebar.period_max in Hb.
    by destruct df.
Qed.


(** ** The cells of the heatmap as a partition of the frame *)

Section partition.

Lemma filter_disjoint_Permutation {A} (P Q : A → Prop)
    `{!∀ x, Decision (P x)} `{!∀ x, Decision (Q x)} (l : list A) :
  (∀ x, P x → Q x → False) →
  filter P l ++ filter Q l ≡ₚ filter (λ x, P x ∨ Q x) l.
Proof.
  intros Hdis. induction l as [|x l IH]; [done|].
  destruct (decide (P x)) as [HP | HnP], (decide (Q x)) as [HQ | HnQ].
  - destruct (Hdis x HP HQ).
  - rewrite (filter_cons_True P), (filter_cons_False Q),
      (filter_cons_True (λ x, P x ∨ Q x)) by tauto.
    simpl. by rewrite IH.
  - rewrite (filter_cons_False P), (filter_cons_True Q),
      (filter_cons_True (λ x, P x ∨ Q x)) by tauto.
    rewrite <- Permutation_middle. by rewrite IH.
  - rewrite (filter_cons_False P), (filter_cons_False Q),
      (filter_cons_False (λ x, P x ∨ Q x)) by tauto.
    exact IH.
Qed.

(** The classes of the rows under [f], taken for keys without
    repetition, are together the rows whose key is among them. *)
Lemma classes_Permutation {A B} `{EqDecision B} (f : A → B) (ks : list B)
    (l : list A) :
  NoDup ks →
  ks ≫= (λ k, filter (λ x, f x = k) l) ≡ₚ filter (λ x, f x ∈ ks) l.
Proof.
  induction 1 as [|k ks Hk _ IH].
  - rewrite filter_none; [done|]. intros x Hx. inversion Hx.
  - rewrite bind_cons, IH, filter_disjoint_Permutation.
    + erewrite list_filter_iff; [reflexivity|].
      intros x. rewrite elem_of_cons. tauto.
    + intros x -> Hin. done.
Qed.

Lemma bind_Permutation_ext {A B} (g h : A → list B) (ks : list A) :
  (∀ k, g k ≡ₚ h k) → ks ≫= g ≡ₚ ks ≫= h.
Proof.
  intros Hgh. induction ks as [|k ks IH]; [done|].
  by rewrite !bind_cons, IH, Hgh.
Qed.

End partition.

(** X16.  The cells of the heatmap partition the filtered frame: taking,
    for every region of the index and every year of the columns, the rows
    [df_r_a] of that region and year, gives every row of the frame exactly
    once. *)
Theorem heatmap_cells_partition df :
  index (pivot df) ≫= (λ region,
    columns (pivot df) ≫= (λ year,
      filter (λ row, region_norm row = region ∧ period row = year) df))
  ≡ₚ df.
Proof.
  etrans.
  { apply (bind_Permutation_ext _
             (λ region, filter (λ row, region_norm row = region) df)).
    intros region. etrans.
    { apply (bind_Permutation_ext _
               (λ year, filter (λ row, period row = year)
                          (filter (λ row, region_norm row = region) df))).
      intros year. rewrite list_filter_filter.
      erewrite list_filter_iff; [reflexivity|]. intros row. tauto. }
    rewrite (classes_Permutation period) by apply pivot_columns_NoDup.
    rewrite filter_Forall_id; [done|].
    apply Forall_forall. intros row [_ Hin]%list_elem_of_filter.
    apply elem_of_pivot_columns. apply list_elem_of_fmap. by exists row. }
  rewrite (classes_Permutation region_norm) by apply pivot_index_NoDup.
  rewrite filter_Forall_id; [done|].
  apply Forall_forall. intros row Hin.
  apply elem_of_pivot_index. apply list_elem_of_fmap. by exists row.
Qed.

(** ** The grouping by region in binary64 *)

Section float64.
Implicit Types (df : list Float64.emission64) (acc : gmap string float).

Lemma float64_group_sums_lookup df acc k :
  default 0%float (foldl Float64.group_add acc df !! k)
  = foldl PrimFloat.add (default 0%float (acc !! k))
      (Float64.f_emisiones
         <$> filter (λ row, Float64.f_region_norm row = k) df).
Proof.
  revert acc. induction df as [|row df IH]; intros acc; [done|].
  simpl foldl at 1. rewrite IH. unfold Float64.group_add.
  destruct (decide (Float64.f_region_norm row = k)) as [<- | Hne].
  - rewrite filter_cons_True by done. by rewrite lookup_insert_eq.
  - rewrite filter_cons_False by done. by rewrite lookup_insert_ne.
Qed.

(** Also in binary64 every total of [emis_region] is the sum, from left
    to right, of the rows of its own region: the grouping is the same, only
    the additions round. *)
Lemma float64_emis_region_totals df :
  Forall (λ e,
      e.2 = Float64.sum_emisiones
              (filter (λ row, Float64.f_region_norm row = e.1) df))
    (Float64.emis_region df).
Proof.
  apply Forall_forall. intros [k v] He. simpl.
  unfold Float64.emis_region, Float64.groupby_sum in He.
  rewrite !merge_sort_Permutation in He. apply elem_of_map_to_list in He.
  pose proof (float64_group_sums_lookup df ∅ k) as Hl.
  unfold Float64.group_sums in He. rewrite He, lookup_empty in Hl.
  exact Hl.
Qed.

End float64.
